(** * ansible v2: [playbook/task.py]

    A shallow embedding of the [Task] class of
    [v2/ansible/playbook/task.py] and the properties of its naming,
    normalisation ([munge]), conditional and tag evaluation, copying and
    serialisation.

    The classes [Task] inherits from ([Base], [Conditional], [Taggable]),
    [FieldAttribute], and the objects a task talks to ([Block], [Role],
    [ModuleArgsParser], [lookup_loader]) live in other files.  Their methods
    are fields of the class [World] below; the few that a statement needs in
    concrete form are modelled from the specification and say so. *)

From Stdlib Require Import ZArith Lia Ascii.
From stdpp Require Import base option list strings pretty gmap fin_maps.

Set Warnings "-register-all".

(** ** Python values *)

(** Identity of an instance object (a [Block], a [Role], a [TaskInclude], an
    entry of a dependency chain).  Two fields that hold the same [oid] hold the
    same object. *)
Definition oid := nat.

(** Address of a mutable container (a [dict] or [list] object) in the store. *)
Definition loc := nat.

(** A value as the task code sees it: a scalar, a container written in place
    (a literal nobody else holds), a reference to a container of the store, or
    a reference to an instance object. *)
Inductive value : Type :=
| VNone
| VBool (b : bool)
| VInt (z : Z)
| VStr (s : string)
| VList (vs : list value)
| VDict (kvs : list (string * value))
| VRef (l : loc)
| VObj (o : oid).

(** The store: the content of every mutable container, by address. *)
Abbreviation heap := (gmap loc value).

(** A mapping handed around by value ([dict] keyed by strings). *)
Abbreviation mapping := (gmap string value).

(** What a value denotes once a container reference is followed. *)
Definition deref (h : heap) (v : value) : value :=
  match v with
  | VRef l => default VNone (h !! l)
  | _ => v
  end.

(** [d.get(k)]: [None] when the key is absent. *)
Definition dict_get (d : mapping) (k : string) : value :=
  default VNone (d !! k).

(** [x is None] *)
Definition is_None (v : value) : bool :=
  match v with VNone => true | _ => false end.

(** Python's truth value ([if x:]) of a value that is no container of the
    store (such a one is tested after [deref]).  Instance objects define
    neither [__len__] nor [__nonzero__], so a reference to one is true. *)
Definition truthy (v : value) : bool :=
  match v with
  | VNone => false
  | VBool b => b
  | VInt z => negb (z =? 0)%Z
  | VStr s => negb (String.eqb s "")
  | VList vs => match vs with [] => false | _ => true end
  | VDict kvs => match kvs with [] => false | _ => true end
  | VRef _ => true
  | VObj _ => true
  end.

(** No reference to a live object or to the store anywhere inside: such a value
    can be rebuilt in a process that shares no memory with this one. *)
Fixpoint self_contained (v : value) : bool :=
  match v with
  | VNone | VBool _ | VInt _ | VStr _ => true
  | VList vs => forallb self_contained vs
  | VDict kvs =>
      (fix go (kvs : list (string * value)) : bool :=
         match kvs with
         | [] => true
         | (_, x) :: rest => self_contained x && go rest
         end) kvs
  | VRef _ => false
  | VObj _ => false
  end.

(** ** Exceptions *)

(** [AnsibleError] is what this file raises itself; anything a collaborator
    raises travels as [Raised]. *)
Inductive exn : Type :=
| AnsibleError (msg : string)
| Raised (what : string).

Inductive res (A : Type) : Type :=
| Ok (a : A)
| Raise (e : exn).
Arguments Ok {A} a.
Arguments Raise {A} e.

#[global] Instance res_ret : MRet res := fun A a => Ok a.

#[global] Instance res_bind : MBind res := fun A B k m =>
  match m with
  | Ok a => k a
  | Raise e => Raise e
  end.

(** ** Strings *)

(** [s.startswith('_')] *)
Definition startswith_underscore (s : string) : bool :=
  match s with
  | String c _ => Ascii.eqb c "_"%char
  | EmptyString => false
  end.

Fixpoint string_drop (n : nat) (s : string) : string :=
  match n, s with
  | S n', String _ s' => string_drop n' s'
  | _, _ => s
  end.

(** [s.replace(old, new)] for a non-empty [old]: every occurrence, leftmost
    first, none overlapping.  Each step consumes a character, so the length
    of [s] is fuel enough. *)
Fixpoint replace_from (fuel : nat) (old new s : string) : string :=
  match fuel with
  | O => s
  | S fuel' =>
      match s with
      | EmptyString => EmptyString
      | String c s' =>
          if String.prefix old s
          then new +:+ replace_from fuel' old new (string_drop (String.length old) s)
          else String c (replace_from fuel' old new s')
      end
  end.

(** With an empty [old], Python puts [new] before every character and at the
    end. *)
Fixpoint intersperse (new s : string) : string :=
  match s with
  | EmptyString => new
  | String c s' => new +:+ String c (intersperse new s')
  end.

Definition str_replace (old new s : string) : string :=
  match old with
  | EmptyString => intersperse new s
  | _ => replace_from (String.length s) old new s
  end.

(** The characters [str.strip()] removes. *)
Definition is_space (c : Ascii.ascii) : bool :=
  match Ascii.nat_of_ascii c with
  | 9 | 10 | 11 | 12 | 13 | 32 => true
  | _ => false
  end.

Fixpoint lstrip (s : string) : string :=
  match s with
  | String c s' => if is_space c then lstrip s' else s
  | EmptyString => EmptyString
  end.

(** Strips from the right: a character stays when it is no space or when
    something stays after it. *)
Fixpoint rstrip (s : string) : string :=
  match s with
  | EmptyString => EmptyString
  | String c s' =>
      match rstrip s' with
      | EmptyString => if is_space c then EmptyString else String c EmptyString
      | r => String c r
      end
  end.

Definition strip (s : string) : string := rstrip (lstrip s).

(** ** The attribute schema *)

Inductive isa_type : Type := isa_bool | isa_int | isa_string | isa_list | isa_dict.

(** [FieldAttribute(isa=..., default=..., private=...)] *)
Record FieldAttribute : Type := mkField {
  isa : isa_type;
  fa_default : value;
  private : bool;
}.

Definition field (t : isa_type) : FieldAttribute := mkField t VNone false.

(** The class body of [Task], lines 58 to 96: [_x = FieldAttribute(...)]
    declares the attribute [x]. *)
Definition task_fields : list (string * FieldAttribute) :=
  [ ("args", mkField isa_dict (VDict []) false);
    ("action", field isa_string);
    ("always_run", field isa_bool);
    ("any_errors_fatal", field isa_bool);
    ("async", mkField isa_int (VInt 0) false);
    ("changed_when", field isa_string);
    ("connection", field isa_string);
    ("delay", mkField isa_int (VInt 5) false);
    ("delegate_to", field isa_string);
    ("environment", field isa_dict);
    ("failed_when", field isa_string);
    ("first_available_file", field isa_list);
    ("ignore_errors", field isa_bool);
    ("loop", mkField isa_string VNone true);
    ("loop_args", mkField isa_list VNone true);
    ("local_action", field isa_string);
    ("meta", field isa_string);
    ("name", field isa_string);
    ("no_log", field isa_bool);
    ("notify", field isa_list);
    ("poll", field isa_int);
    ("register", field isa_string);
    ("remote_user", field isa_string);
    ("retries", mkField isa_int (VInt 1) false);
    ("run_once", field isa_bool);
    ("su", field isa_bool);
    ("su_pass", field isa_string);
    ("su_user", field isa_string);
    ("sudo", field isa_bool);
    ("sudo_user", field isa_string);
    ("sudo_pass", field isa_string);
    ("transport", field isa_string);
    ("until", field isa_list) ].

(** Modelled from the spec: the attributes [Task] inherits from [Taggable]
    and [Conditional], whose class bodies are in other files.  The data model
    lists [tags] (a list, empty by default) and [when] (an expression, no
    default). *)
Definition inherited_fields : list (string * FieldAttribute) :=
  [ ("tags", mkField isa_list (VList []) false);
    ("when", field isa_string) ].

(** [self._get_base_attributes()] *)
Definition base_attributes : list (string * FieldAttribute) :=
  task_fields ++ inherited_fields.

Definition field_names : list string := base_attributes.*1.

(** ** The task object *)

Record Task : Type := mkTask {
  (** [Base._attributes]: the value of every declared attribute *)
  attributes : mapping;
  _block : option oid;
  _role : option oid;
  _task_include : option oid;
  _dep_chain : list oid;
}.

(** [getattr(self, name)] for a declared attribute *)
Definition getattr (self : Task) (name : string) : value :=
  dict_get (attributes self) name.

Definition set_attributes (self : Task) (a : mapping) : Task :=
  mkTask a (_block self) (_role self) (_task_include self) (_dep_chain self).

(** ** Collaborators *)

(** What the code of other files does for [Task].  A method of an instance
    object is a function of the object's identity. *)
Class World : Type := {
  (** [ModuleArgsParser(task_ds=ds).parse()]: action, args, delegate_to *)
  parse_args : list (string * value) → res (value * value * value);
  (** [name in lookup_loader] *)
  lookup_loader : string → bool;
  (** [role.get_name()] *)
  inst_get_name : oid → string;
  (** [scope.evaluate_conditional(all_vars)] of a block or a chain entry *)
  inst_evaluate_conditional : oid → mapping → res bool;
  (** [scope.evaluate_tags(only_tags, skip_tags, all_vars)] *)
  inst_evaluate_tags : oid → list string → list string → mapping → bool;
  (** [obj.serialize()] of a block or a role *)
  inst_serialize : oid → value;
  (** [obj.copy()] of a block or a task include *)
  inst_copy : oid → oid;
  (** [b = Block(); b.deserialize(data)]: the new block *)
  Block_deserialize : value → oid;
  (** [r = Role(); r.deserialize(data)]: the new role *)
  Role_deserialize : value → oid;
  (** [Conditional.evaluate_conditional(self, all_vars)]: the task's own [when] *)
  Conditional_evaluate_conditional : Task → mapping → res bool;
  (** [Taggable.evaluate_tags(self, only_tags, skip_tags, all_vars)] *)
  Taggable_evaluate_tags : Task → list string → list string → mapping → bool;
  (** [repr(x)] of a container or an object, as ["%s" % x] prints it *)
  py_repr : value → string;
}.

(** ** Construction *)

(** A new container object holding [v]. *)
Definition alloc (h : heap) (v : value) : loc * heap :=
  let l := fresh (dom h) in (l, <[l := v]> h).

(** Modelled from the spec: how [Base.__init__] (in base.py) gives an
    attribute its default, "instantiated fresh per object, never a shared
    mutable instance": a container default becomes a new object of the store,
    a scalar is stored as it is. *)
Definition instantiate (h : heap) (d : value) : value * heap :=
  match d with
  | VList _ | VDict _ => let '(l, h') := alloc h d in (VRef l, h')
  | _ => (d, h)
  end.

(** The loop of [Base.__init__] over the declared attributes. *)
Fixpoint init_attributes (fields : list (string * FieldAttribute))
    (h : heap) (attrs : mapping) : mapping * heap :=
  match fields with
  | [] => (attrs, h)
  | (name, fa) :: rest =>
      let '(v, h') := instantiate h (fa_default fa) in
      init_attributes rest h' (<[name := v]> attrs)
  end.

(** [Task.__init__(self, block, role, task_include)]: the three scopes, an
    empty dependency chain, then [super(Task, self).__init__()]. *)
Definition Task_init (h : heap) (block role task_include : option oid) : Task * heap :=
  let '(attrs, h') := init_attributes base_attributes h ∅ in
  (mkTask attrs block role task_include [], h').

(** ** Operations of [Task] *)

Section Operations.
Context `{W : World}.

(** ["%s" % v] *)
Definition fmt_s (v : value) : string :=
  match v with
  | VNone => "None"
  | VBool true => "True"
  | VBool false => "False"
  | VInt z => pretty z
  | VStr s => s
  | _ => py_repr v
  end.

(** *** Naming *)

(** One round of the loop of [_merge_kv]. *)
Definition merge_kv_step (buf : string) (kv : string * value) : string :=
  if startswith_underscore kv.1 then buf
  else buf +:+ kv.1 +:+ "=" +:+ fmt_s kv.2 +:+ " ".

(** [Task._merge_kv(self, ds)].  A [ds] that is neither [None], a string nor
    a dict falls off the end of the method, which returns [None]. *)
Definition _merge_kv (ds : value) : value :=
  match ds with
  | VNone => VStr ""
  | VStr _ => ds
  | VDict kvs => VStr (strip (foldl merge_kv_step "" kvs))
  | _ => VNone
  end.

(** [Task.get_name(self)] *)
Definition get_name (h : heap) (self : Task) : value :=
  let name := deref h (getattr self "name") in
  match _role self, truthy name with
  | Some role, true => VStr (inst_get_name role +:+ " : " +:+ fmt_s name)
  | None, true => name
  | role, false =>
      let flattened_args := _merge_kv (deref h (getattr self "args")) in
      let action := deref h (getattr self "action") in
      match role with
      | Some role =>
          VStr (inst_get_name role +:+ " : " +:+ fmt_s action +:+ " " +:+ fmt_s flattened_args)
      | None => VStr (fmt_s action +:+ " " +:+ fmt_s flattened_args)
      end
  end.

(** *** Normalisation *)

(** [k.replace("with_", "")] *)
Definition loop_name_of (k : string) : string := str_replace "with_" "" k.

(** [Task._munge_loop(self, ds, new_ds, k, v)] *)
Definition _munge_loop (new_ds : mapping) (k : string) (v : value) : res mapping :=
  let loop_name := loop_name_of k in
  if negb (is_None (dict_get new_ds "loop"))
  then Raise (AnsibleError ("duplicate loop in task: " +:+ loop_name))
  else Ok (<["loop_args" := v]> (<["loop" := VStr loop_name]> new_ds)).

(** [k == action], a string against whatever the parser returned *)
Definition is_action (action : value) (k : string) : bool :=
  match action with
  | VStr a => String.eqb k a
  | _ => false
  end.

(** The keys the loop of [munge] skips: the parser has dealt with them. *)
Definition parsed_key (action : value) (k : string) : bool :=
  bool_decide (k ∈ ["action"; "local_action"; "args"; "delegate_to"])
  || is_action action k
  || String.eqb k "shell".

(** The keys the loop of [munge] hands to [_munge_loop]. *)
Definition loop_key (action : value) (k : string) : bool :=
  negb (parsed_key action k) && lookup_loader (loop_name_of k).

(** One round of the loop of [munge]. *)
Definition munge_item (action : value) (new_ds : mapping) (kv : string * value) : res mapping :=
  if parsed_key action kv.1 then Ok new_ds
  else if lookup_loader (loop_name_of kv.1) then _munge_loop new_ds kv.1 kv.2
  else Ok (<[kv.1 := kv.2]> new_ds).

Fixpoint munge_items (action : value) (items : list (string * value))
    (new_ds : mapping) : res mapping :=
  match items with
  | [] => Ok new_ds
  | kv :: rest =>
      new_ds' ← munge_item action new_ds kv;
      munge_items action rest new_ds'
  end.

(** [Task.munge(self, ds)].  [ds] is the raw mapping in the order
    [ds.iteritems()] yields its items. *)
Definition munge (ds : list (string * value)) : res mapping :=
  '(action, args, delegate_to) ← parse_args ds;
  munge_items action ds
    (<["delegate_to" := delegate_to]> (<["args" := args]> (<["action" := action]> ∅))).

(** *** Conditionals and tags *)

(** The loop over [self._dep_chain] in [evaluate_conditional]: [Ok false]
    is the early [return False], [Ok true] is falling out of the loop. *)
Fixpoint chain_evaluate_conditional (deps : list oid) (all_vars : mapping) : res bool :=
  match deps with
  | [] => Ok true
  | dep :: rest =>
      b ← inst_evaluate_conditional dep all_vars;
      if negb b then Ok false else chain_evaluate_conditional rest all_vars
  end.

(** [Task.evaluate_conditional(self, all_vars)] *)
Definition evaluate_conditional (self : Task) (all_vars : mapping) : res bool :=
  passed ← chain_evaluate_conditional (_dep_chain self) all_vars;
  if negb passed then Ok false
  else match _block self with
       | Some block =>
           b ← inst_evaluate_conditional block all_vars;
           if negb b then Ok false
           else Conditional_evaluate_conditional self all_vars
       | None => Conditional_evaluate_conditional self all_vars
       end.

(** [Task.evaluate_tags(self, only_tags, skip_tags, all_vars)] *)
Definition evaluate_tags (self : Task) (only_tags skip_tags : list string)
    (all_vars : mapping) : bool :=
  let result :=
    foldl (fun result dep => result || inst_evaluate_tags dep only_tags skip_tags all_vars)
      false (_dep_chain self) in
  let result :=
    match _block self with
    | Some block => result || inst_evaluate_tags block only_tags skip_tags all_vars
    | None => result
    end in
  result || Taggable_evaluate_tags self only_tags skip_tags all_vars.

(** *** Serialisation *)

(** Modelled from the spec: [Base.serialize] (in base.py), "a self-contained
    mapping of every attribute (public and private)": each declared attribute
    under its name. *)
Definition Base_serialize (self : Task) : mapping :=
  list_to_map ((fun name => (name, getattr self name)) <$> field_names).

(** Modelled from the spec: [Base.deserialize] (in base.py), which "restores
    scalar attributes": each declared attribute the mapping has is set from
    it, the others stay as they are. *)
Definition Base_deserialize (self : Task) (data : mapping) : Task :=
  set_attributes self
    (foldr (fun name attrs =>
              match data !! name with
              | Some v => <[name := v]> attrs
              | None => attrs
              end)
       (attributes self) field_names).

(** [Task.serialize(self)] *)
Definition serialize (self : Task) : mapping :=
  let data := Base_serialize self in
  let data := <["dep_chain" := VList (VObj <$> _dep_chain self)]> data in
  let data :=
    match _block self with
    | Some block => <["block" := inst_serialize block]> data
    | None => data
    end in
  match _role self with
  | Some role => <["role" := inst_serialize role]> data
  | None => data
  end.

(** The objects of a list of object references. *)
Fixpoint objects_of (vs : list value) : option (list oid) :=
  match vs with
  | [] => Some []
  | VObj o :: rest => (o ::.) <$> objects_of rest
  | _ => None
  end.

(** [data.get('dep_chain', [])], read as a dependency chain.  [None] is a
    mapping whose [dep_chain] is no list of objects: Python would store it
    and fail at the first use. *)
Definition get_dep_chain (data : mapping) : option (list oid) :=
  match data !! "dep_chain" with
  | None => Some []
  | Some (VList vs) => objects_of vs
  | Some _ => None
  end.

(** The first part of [Task.deserialize]: the chain, the block and the role
    are rebuilt and the keys [block] and [role] are deleted from [data]. *)
Definition deserialize_nested (self : Task) (data : mapping) : option (Task * mapping) :=
  let block_data := dict_get data "block" in
  chain ← get_dep_chain data;
  let '(block, data) :=
    if truthy block_data
    then (Some (Block_deserialize block_data), delete "block" data)
    else (_block self, data) in
  let role_data := dict_get data "role" in
  let '(role, data) :=
    if truthy role_data
    then (Some (Role_deserialize role_data), delete "role" data)
    else (_role self, data) in
  Some (mkTask (attributes self) block role (_task_include self) chain, data).

(** [Task.deserialize(self, data)]: the task afterwards, and [data] as the
    method leaves it. *)
Definition deserialize (self : Task) (data : mapping) : option (Task * mapping) :=
  '(self, data) ← deserialize_nested self data;
  Some (Base_deserialize self data, data).

(** [Task.get_vars(self)] *)
Definition get_vars (self : Task) : mapping :=
  let all_vars := serialize self in
  let all_vars := if bool_decide (is_Some (all_vars !! "tags")) then delete "tags" all_vars else all_vars in
  let all_vars := if bool_decide (is_Some (all_vars !! "when")) then delete "when" all_vars else all_vars in
  all_vars.

(** *** Copying *)

(** Modelled from the spec: how [Base.copy] (in base.py) carries an attribute
    over, so that the copy has "independent attribute storage": a container
    of the store is duplicated into a new object, anything else is passed
    on. *)
Definition copy_value (h : heap) (v : value) : value * heap :=
  match v with
  | VRef l => let '(l', h') := alloc h (deref h v) in (VRef l', h')
  | _ => (v, h)
  end.

(** The loop of [Base.copy] over the declared attributes. *)
Fixpoint copy_attributes (names : list string) (self : Task)
    (h : heap) (attrs : mapping) : mapping * heap :=
  match names with
  | [] => (attrs, h)
  | name :: rest =>
      let '(v, h') := copy_value h (getattr self name) in
      copy_attributes rest self h' (<[name := v]> attrs)
  end.

(** Modelled from the spec: [Base.copy] (in base.py): a new object of the
    same class, [self.__class__()], given every declared attribute of
    [self]. *)
Definition Base_copy (h : heap) (self : Task) : Task * heap :=
  let '(new_me, h) := Task_init h None None None in
  let '(attrs, h) := copy_attributes field_names self h (attributes new_me) in
  (set_attributes new_me attrs, h).

(** [Task.copy(self)] *)
Definition copy (h : heap) (self : Task) : Task * heap :=
  let '(new_me, h) := Base_copy h self in
  let dep_chain := _dep_chain self in
  let block := inst_copy <$> _block self in
  let role := _role self in
  let task_include := inst_copy <$> _task_include self in
  (mkTask (attributes new_me) block role task_include dep_chain, h).

End Operations.

(** ** Notions the statements use *)

(** A run of guards, left to right, stopping at the first that is not true. *)
Fixpoint all_guards (guards : list (res bool)) : res bool :=
  match guards with
  | [] => Ok true
  | g :: rest => b ← g; if negb b then Ok false else all_guards rest
  end.

(** The guards of a task: the chain entries, the block when there is one, the
    task's own [when]. *)
Definition conditional_members `{W : World} (self : Task) (all_vars : mapping) : list (res bool) :=
  ((fun dep => inst_evaluate_conditional dep all_vars) <$> _dep_chain self)
  ++ match _block self with
     | Some block => [inst_evaluate_conditional block all_vars]
     | None => []
     end
  ++ [Conditional_evaluate_conditional self all_vars].

(** [new_ds] already names a loop. *)
Definition has_loop (new_ds : mapping) : bool := negb (is_None (dict_get new_ds "loop")).

(** The items [munge] hands to [_munge_loop]. *)
Definition loop_items `{W : World} (action : value) (items : list (string * value)) : list (string * value) :=
  filter (fun kv => loop_key action kv.1 = true) items.

(** A recognized loop key: a key of the form [with_<name>] whose [<name>] is
    a registered lookup plugin. *)
Definition recognized_loop_key `{W : World} (k : string) : bool :=
  String.prefix "with_" k && lookup_loader (string_drop 5 k).

(** The items of a raw mapping under a recognized loop key. *)
Definition recognized_loop_items `{W : World} (items : list (string * value)) :
    list (string * value) :=
  filter (fun kv => recognized_loop_key kv.1 = true) items.

(** The raw mapping is one in which [munge] takes for a loop exactly the
    recognized loop keys: no bare plugin name and no key with [with_] in its
    middle is among its keys, and the parser has taken no recognized loop
    key. *)
Definition loops_as_written `{W : World} (action : value) (items : list (string * value)) : Prop :=
  Forall (fun kv => loop_key action kv.1 = recognized_loop_key kv.1) items.

(** A container written in place: the defaults [dict()] and [[]]. *)
Definition is_container (d : value) : bool :=
  match d with
  | VList _ | VDict _ => true
  | _ => false
  end.

(** [v] is what a new object holds for a field whose default is [d]: for a
    container default a container of its own, not of [h], with the content of
    [d]; for a scalar default the scalar. *)
Definition fresh_instance (h h' : heap) (d v : value) : Prop :=
  if is_container d
  then ∃ l, v = VRef l ∧ (l ∉ dom h) ∧ h' !! l = Some d
  else v = d.

(** [v'] is what a copy holds in place of [v]: for a container of the store a
    new one with the same content, for anything else the value itself. *)
Definition copied (h h' : heap) (v v' : value) : Prop :=
  match v with
  | VRef l => ∃ l', v' = VRef l' ∧ (l' ∉ dom h) ∧ ∀ c, h !! l = Some c → h' !! l' = Some c
  | _ => v' = v
  end.

(** ** A small world to run the code in *)

(** The value under [k] in a list of items. *)
Fixpoint assoc (k : string) (items : list (string * value)) : option value :=
  match items with
  | [] => None
  | (k', v) :: rest => if String.eqb k k' then Some v else assoc k rest
  end.

(** A parser for tasks written with an explicit [action] key and no
    arguments. *)
Definition parse_action_key (ds : list (string * value)) : res (value * value * value) :=
  match assoc "action" ds with
  | Some action => Ok (action, VDict [], VNone)
  | None => Raise (Raised "no action detected in task")
  end.

Definition payload_of (o : oid) : value := VDict [("id", VInt (Z.of_nat o))].

Definition object_of (data : value) : oid :=
  match data with
  | VDict [(_, VInt z)] => Z.to_nat z
  | _ => 0
  end.

(** Three lookup plugins; every role is called "web"; scope 0 has a false
    guard and no matching tag, scope 1 has a malformed guard, every other
    scope passes; a task's own guard and tags are read from its [when] and
    [tags] attributes. *)
Definition small_world : World := {|
  parse_args := parse_action_key;
  lookup_loader := fun name => bool_decide (name ∈ ["items"; "dict"; "file"]);
  inst_get_name := fun _ => "web";
  inst_evaluate_conditional := fun o _ =>
    match o with
    | 0 => Ok false
    | 1 => Raise (Raised "error while evaluating conditional")
    | _ => Ok true
    end;
  inst_evaluate_tags := fun o _ _ _ => negb (Nat.eqb o 0);
  inst_serialize := payload_of;
  inst_copy := S;
  Block_deserialize := object_of;
  Role_deserialize := object_of;
  Conditional_evaluate_conditional := fun self _ => Ok (negb (is_None (getattr self "when")));
  Taggable_evaluate_tags := fun self _ _ _ => truthy (getattr self "tags");
  py_repr := fun _ => "<object>";
|}.

(** A task with the given attributes and nothing around it. *)
Definition bare_task (attrs : list (string * value)) : Task :=
  mkTask (list_to_map attrs) None None None [].

(** A task of role 7 in block 4, behind two chain entries. *)
Definition nested_task : Task :=
  mkTask (list_to_map [("name", VStr "Install nginx"); ("action", VStr "apt");
                       ("args", VDict [("name", VStr "nginx")]); ("tags", VList [VStr "web"])])
    (Some 4) (Some 7) None [3; 2].

(** Closes a decidable goal about concrete data by evaluating its decision
    procedure. *)
Ltac by_decision :=
  lazymatch goal with |- ?P => apply (bool_decide_unpack P); vm_compute; exact I end.

(** Finds an item in a list written out in full. *)
Ltac in_list := repeat first [apply list_elem_of_here | apply list_elem_of_further].

(** ** The loader *)

(** [Task.set_loader(self, loader)].  The loader of a task is held outside
    its attributes; [objects] is the state of the instance objects, on which
    [set_loader_of o loader] is the effect of [o.set_loader(loader)].  The
    result is the task's [_loader] and the objects afterwards. *)
Definition set_loader {Loader Objects : Type}
    (set_loader_of : oid → Loader → Objects → Objects)
    (self : Task) (loader : Loader) (objects : Objects) : Loader * Objects :=
  let objects :=
    match _block self with
    | Some block => set_loader_of block loader objects
    | None => objects
    end in
  (loader, foldl (fun objects dep => set_loader_of dep loader objects) objects (_dep_chain self)).

(** [old in s] *)
Fixpoint str_contains (old s : string) : bool :=
  String.prefix old s
  || match s with
     | String _ s' => str_contains old s'
     | EmptyString => false
     end.

(** The task [self] with another dependency chain. *)
Definition with_dep_chain (self : Task) (chain : list oid) : Task :=
  mkTask (attributes self) (_block self) (_role self) (_task_include self) chain.

(** The boolean a guard returns, and [true] for one that raises. *)
Definition guard_value `{W : World} (all_vars : mapping) (dep : oid) : bool :=
  match inst_evaluate_conditional dep all_vars with
  | Ok b => b
  | Raise _ => true
  end.

(** * Properties *)

(** ** Strings *)

Example str_replace_prefix : str_replace "with_" "" "with_items" = "items".
Proof. reflexivity. Qed.

Example str_replace_inner : str_replace "with_" "" "first_with_found" = "first_found".
Proof. reflexivity. Qed.

Example str_replace_absent : str_replace "with_" "" "items" = "items".
Proof. reflexivity. Qed.

Example strip_both : strip "  msg=hi b=2 " = "msg=hi b=2".
Proof. reflexivity. Qed.

(** ** Conditional evaluation *)

Section Conditional.
Context `{W : World}.

Lemma chain_is_all_guards deps all_vars :
  chain_evaluate_conditional deps all_vars
  = all_guards ((fun dep => inst_evaluate_conditional dep all_vars) <$> deps).
Proof.
  induction deps as [|dep rest IH]; simpl; [done|].
  destruct (inst_evaluate_conditional dep all_vars) as [[]|]; simpl; auto.
Qed.

Lemma all_guards_app gs1 gs2 :
  all_guards (gs1 ++ gs2)
  = (passed ← all_guards gs1; if negb passed then Ok false else all_guards gs2).
Proof.
  induction gs1 as [|g gs1 IH]; simpl; [done|].
  destruct g as [[]|]; simpl; auto.
Qed.

Lemma evaluate_conditional_members self all_vars :
  evaluate_conditional self all_vars = all_guards (conditional_members self all_vars).
Proof.
  unfold evaluate_conditional, conditional_members.
  rewrite all_guards_app, chain_is_all_guards.
  destruct (all_guards _) as [[]|]; simpl; [|done..].
  destruct (_block self); simpl.
  - destruct (inst_evaluate_conditional _ _) as [[]|]; simpl; [|done..].
    by destruct (Conditional_evaluate_conditional _ _) as [[]|].
  - by destruct (Conditional_evaluate_conditional _ _) as [[]|].
Qed.

Lemma all_guards_true gs :
  all_guards gs = Ok true ↔ Forall (fun g => g = Ok true) gs.
Proof.
  induction gs as [|g gs IH]; simpl.
  - split; [constructor|done].
  - rewrite Forall_cons. destruct g as [[]|]; simpl.
    + rewrite IH. tauto.
    + split; [done|intros [? _]; done].
    + split; [done|intros [? _]; done].
Qed.

Lemma all_guards_first pre g post :
  Forall (fun x => x = Ok true) pre → g ≠ Ok true →
  all_guards (pre ++ g :: post) = g.
Proof.
  induction 1 as [|x pre -> _ IH]; simpl; intros Hg.
  - destruct g as [[]|]; simpl; congruence.
  - auto.
Qed.

Lemma all_guards_false pre post :
  Forall (fun x => ∃ b, x = Ok b) pre →
  all_guards (pre ++ Ok false :: post) = Ok false.
Proof.
  induction 1 as [|x pre [b ->] _ IH]; simpl; [done|].
  by destruct b.
Qed.

(** C1. [evaluate_conditional] is the conjunction of the guards of the chain
    entries, of the block when there is one, and of the task's own [when],
    consulted in that order: it returns true exactly when every one of them
    evaluates true; the first guard that is not true decides the result and
    nothing after it is consulted; a false guard makes the result false
    whatever the guards after it do, and can never be outvoted. *)
Theorem evaluate_conditional_conjunctive (self : Task) (all_vars : mapping) :
  (evaluate_conditional self all_vars = Ok true ↔
     (∀ dep, dep ∈ _dep_chain self → inst_evaluate_conditional dep all_vars = Ok true)
     ∧ (∀ block, _block self = Some block → inst_evaluate_conditional block all_vars = Ok true)
     ∧ Conditional_evaluate_conditional self all_vars = Ok true)
  ∧ (∀ pre g post,
       conditional_members self all_vars = pre ++ g :: post →
       Forall (fun x => x = Ok true) pre → g ≠ Ok true →
       evaluate_conditional self all_vars = g)
  ∧ (∀ pre post,
       conditional_members self all_vars = pre ++ Ok false :: post →
       Forall (fun x => ∃ b, x = Ok b) pre →
       evaluate_conditional self all_vars = Ok false)
  ∧ (Ok false ∈ conditional_members self all_vars →
       evaluate_conditional self all_vars ≠ Ok true).
Proof.
  rewrite evaluate_conditional_members.
  split_and!.
  - rewrite all_guards_true. unfold conditional_members.
    rewrite !Forall_app, Forall_fmap, Forall_forall, Forall_singleton.
    destruct (_block self) as [block|].
    + rewrite Forall_singleton. split.
      * intros (? & ? & ?). split_and!; [done| |done]. by intros ? [= <-].
      * intros (? & Hb & ?). split_and!; [done| |done]. by apply Hb.
    + split.
      * intros (? & ? & ?). by split_and!.
      * intros (? & ? & ?). split_and!; [done| |done]. constructor.
  - intros pre g post -> Hpre Hg. by apply all_guards_first.
  - intros pre post -> Hpre. by apply all_guards_false.
  - intros Hin Htrue. apply all_guards_true in Htrue.
    rewrite Forall_forall in Htrue. by specialize (Htrue _ Hin).
Qed.

End Conditional.

(** A false chain entry vetoes a task whose block and own guard pass, and is
    reached before the malformed guard behind it. *)
Lemma evaluate_conditional_conjunctive_witness :
  let self := mkTask {["when" := VStr "x"]} (Some 2) None None [3; 0; 1] in
  @evaluate_conditional small_world self ∅ = Ok false.
Proof.
  intros self.
  apply (proj1 (proj2 (proj2 (@evaluate_conditional_conjunctive small_world self ∅)))
           [Ok true] [Raise (Raised "error while evaluating conditional"); Ok true; Ok true]).
  - reflexivity.
  - repeat constructor. by exists true.
Defined.

(** ** Tag evaluation *)

Section Tags.
Context `{W : World}.

Lemma foldl_orb {A} (f : A → bool) (start : bool) (xs : list A) :
  foldl (fun result x => result || f x) start xs = start || existsb f xs.
Proof.
  revert start. induction xs as [|x xs IH]; intros start; simpl.
  - by rewrite orb_false_r.
  - by rewrite IH, orb_assoc.
Qed.

(** C8. [evaluate_tags] is true exactly when a chain entry, the block (when
    there is one) or the task's own tags match the selection. *)
Theorem evaluate_tags_disjunctive (self : Task) (only_tags skip_tags : list string)
    (all_vars : mapping) :
  evaluate_tags self only_tags skip_tags all_vars = true ↔
    (∃ dep, dep ∈ _dep_chain self ∧ inst_evaluate_tags dep only_tags skip_tags all_vars = true)
    ∨ (∃ block, _block self = Some block
                ∧ inst_evaluate_tags block only_tags skip_tags all_vars = true)
    ∨ Taggable_evaluate_tags self only_tags skip_tags all_vars = true.
Proof.
  unfold evaluate_tags. rewrite foldl_orb. simpl.
  assert (Hchain : existsb (fun dep => inst_evaluate_tags dep only_tags skip_tags all_vars)
                     (_dep_chain self) = true
                   ↔ ∃ dep, dep ∈ _dep_chain self
                            ∧ inst_evaluate_tags dep only_tags skip_tags all_vars = true).
  { rewrite existsb_exists. by setoid_rewrite list_elem_of_In. }
  destruct (_block self) as [block|].
  - rewrite !orb_true_iff, Hchain. split.
    + intros [[?|?]|?]; eauto.
    + intros [?|[(? & [= <-] & ?)|?]]; auto.
  - rewrite orb_true_iff, Hchain. split.
    + intros [?|?]; auto.
    + intros [?|[(? & [=] & _)|?]]; auto.
Qed.

End Tags.

(** ** Naming *)

Section Naming.
Context `{W : World}.

Lemma string_app_nil_r (s : string) : s +:+ "" = s.
Proof.
  induction s as [|c s IH]; [reflexivity|].
  change (String c s +:+ "") with (String c (s +:+ "")). by rewrite IH.
Qed.

Lemma string_app_assoc (s1 s2 s3 : string) : s1 +:+ (s2 +:+ s3) = (s1 +:+ s2) +:+ s3.
Proof.
  induction s1 as [|c s1 IH]; [reflexivity|].
  change (String c (s1 +:+ (s2 +:+ s3)) = String c ((s1 +:+ s2) +:+ s3)).
  by rewrite IH.
Qed.

(** The text [_merge_kv] builds from a dict before it is stripped: one
    ["k=v "] per key that does not start with an underscore, in the order of
    the dict. *)
Lemma merge_kv_loop (buf : string) (kvs : list (string * value)) :
  foldl merge_kv_step buf kvs
  = buf +:+ String.concat ""
      ((fun kv => kv.1 +:+ "=" +:+ fmt_s kv.2 +:+ " ")
         <$> filter (fun kv => startswith_underscore kv.1 = false) kvs).
Proof.
  revert buf. induction kvs as [|kv kvs IH]; intros buf; simpl.
  - by rewrite string_app_nil_r.
  - rewrite IH. unfold merge_kv_step. rewrite filter_cons.
    destruct (startswith_underscore kv.1) eqn:Hk.
    + by rewrite decide_False by done.
    + rewrite decide_True by done. rewrite fmap_cons. cbn [String.concat].
      destruct (_ <$> filter _ kvs) as [|x xs] eqn:Hrest.
      * cbn [String.concat]. by rewrite !string_app_nil_r.
      * rewrite <- !string_app_assoc. reflexivity.
Qed.

(** C6, as the code has it. [get_name] returns, in this order of priority:
    ["<role> : <name>"] when the task has a role and a non-empty name; the
    name when it has a non-empty name only; ["<role> : <action> <args>"]
    when it has a role and no name; ["<action> <args>"] otherwise, where
    [<args>] is the flattened [args].  The role is set off by a colon
    between two spaces.  A task named "Install nginx" without a role is
    called "Install nginx"; one without name or role, with action "debug"
    and args [{"msg": "hi"}], is called "debug msg=hi". *)
Theorem get_name_priority (h : heap) (self : Task) :
  let name := deref h (getattr self "name") in
  let action := deref h (getattr self "action") in
  let flattened_args := _merge_kv (deref h (getattr self "args")) in
  (∀ role, _role self = Some role → truthy name = true →
     get_name h self = VStr (inst_get_name role +:+ " : " +:+ fmt_s name))
  ∧ (_role self = None → truthy name = true → get_name h self = name)
  ∧ (∀ role, _role self = Some role → truthy name = false →
       get_name h self
       = VStr (inst_get_name role +:+ " : " +:+ fmt_s action +:+ " " +:+ fmt_s flattened_args))
  ∧ (_role self = None → truthy name = false →
       get_name h self = VStr (fmt_s action +:+ " " +:+ fmt_s flattened_args))
  ∧ get_name h (bare_task [("name", VStr "Install nginx")]) = VStr "Install nginx"
  ∧ get_name h (bare_task [("action", VStr "debug"); ("args", VDict [("msg", VStr "hi")])])
    = VStr "debug msg=hi".
Proof.
  intros name action flattened_args. unfold get_name.
  fold name action flattened_args.
  split_and!.
  - by intros role -> ->.
  - by intros -> ->.
  - by intros role -> ->.
  - by intros -> ->.
  - reflexivity.
  - reflexivity.
Qed.

End Naming.

(** A task of role "web" with a name and one with an action only. *)
Lemma get_name_priority_witness :
  @get_name small_world ∅ (mkTask {["name" := VStr "Install nginx"]} None (Some 7) None [])
  = VStr "web : Install nginx"
  ∧ @get_name small_world ∅
      (mkTask (list_to_map [("action", VStr "debug"); ("args", VDict [("msg", VStr "hi")])])
         None (Some 7) None [])
    = VStr "web : debug msg=hi".
Proof.
  split.
  - rewrite (proj1 (@get_name_priority small_world ∅ _) 7); reflexivity.
  - rewrite (proj1 (proj2 (proj2 (@get_name_priority small_world ∅ _))) 7); reflexivity.
Defined.

(** C6 as stated fails: with a role, the code does not produce
    ["<role>: <name>"]. *)
Lemma get_name_colon_counterexample :
  let self := mkTask {["name" := VStr "Install nginx"]} None (Some 7) None [] in
  @get_name small_world ∅ self = VStr "web : Install nginx"
  ∧ @get_name small_world ∅ self
    ≠ VStr (@inst_get_name small_world 7 +:+ ": " +:+ "Install nginx").
Proof. split; [reflexivity|discriminate]. Qed.

(** ** Normalisation *)

Section Munge.
Context `{W : World}.

Lemma has_loop_after_munge_loop new_ds k v :
  has_loop (<["loop_args" := v]> (<["loop" := VStr (loop_name_of k)]> new_ds)) = true.
Proof.
  unfold has_loop, dict_get.
  rewrite lookup_insert_ne by done. by rewrite lookup_insert_eq.
Qed.

Lemma has_loop_insert_ne new_ds k v :
  k ≠ "loop" → has_loop (<[k := v]> new_ds) = has_loop new_ds.
Proof. intros Hk. unfold has_loop, dict_get. by rewrite lookup_insert_ne. Qed.

Lemma loop_items_cons action kv items :
  loop_items action (kv :: items)
  = if loop_key action kv.1 then kv :: loop_items action items else loop_items action items.
Proof.
  unfold loop_items. rewrite filter_cons.
  destruct (loop_key action kv.1); [by rewrite decide_True|by rewrite decide_False].
Qed.

(** Without a raw key called [loop], the loop of [munge] raises exactly at
    the second loop it meets, counting the one [new_ds] may hold already. *)
Lemma munge_items_loops action items : ∀ new_ds,
  "loop" ∉ items.*1 →
  let n := (length (loop_items action items) + if has_loop new_ds then 1 else 0)%nat in
  (n ≤ 1 → ∃ out, munge_items action items new_ds = Ok out)
  ∧ (2 ≤ n → ∃ k, k ∈ (loop_items action items).*1
               ∧ munge_items action items new_ds
                 = Raise (AnsibleError ("duplicate loop in task: " +:+ loop_name_of k))).
Proof.
  induction items as [|[k v] items IH]; intros new_ds Hloop n.
  - subst n. simpl. split; [eauto|]. destruct (has_loop new_ds); lia.
  - rewrite fmap_cons, not_elem_of_cons in Hloop. destruct Hloop as [Hk Hloop].
    subst n. rewrite loop_items_cons. cbn [munge_items fst].
    unfold munge_item, loop_key. cbn [fst snd].
    destruct (parsed_key action k); cbn [negb andb].
    { apply IH, Hloop. }
    destruct (lookup_loader (loop_name_of k)).
    + unfold _munge_loop. fold (has_loop new_ds).
      destruct (has_loop new_ds) eqn:Harmed; cbn [mbind res_bind].
      * split; [cbn [length]; lia|]. intros _. exists k. split; [|done].
        rewrite fmap_cons. apply list_elem_of_here.
      * specialize (IH (<["loop_args" := v]> (<["loop" := VStr (loop_name_of k)]> new_ds)) Hloop).
        rewrite has_loop_after_munge_loop in IH. cbn [length].
        destruct IH as [IH1 IH2]. split.
        -- intros ?. apply IH1. lia.
        -- intros ?. destruct IH2 as (k' & ? & ?); [lia|].
           exists k'. split; [|done]. rewrite fmap_cons. by apply list_elem_of_further.
    + cbn [mbind res_bind].
      specialize (IH (<[k := v]> new_ds) Hloop).
      rewrite has_loop_insert_ne in IH by done. apply IH.
Qed.

(** For a raw mapping that the argument parser accepts and that has no key
    called [loop]: with two or more items handed to [_munge_loop], [munge]
    raises the duplicate-loop error, naming one of them; with at most one it
    raises nothing. *)
Lemma munge_loop_items_count (ds : list (string * value)) (action args delegate_to : value) :
  parse_args ds = Ok (action, args, delegate_to) →
  "loop" ∉ ds.*1 →
  (2 ≤ length (loop_items action ds) →
     ∃ k, k ∈ (loop_items action ds).*1
          ∧ munge ds = Raise (AnsibleError ("duplicate loop in task: " +:+ loop_name_of k)))
  ∧ (length (loop_items action ds) ≤ 1 → ∃ new_ds, munge ds = Ok new_ds).
Proof.
  intros Hparse Hloop. unfold munge. rewrite Hparse. cbn [mbind res_bind].
  pose proof (munge_items_loops action ds
    (<["delegate_to" := delegate_to]> (<["args" := args]> (<["action" := action]> ∅))) Hloop)
    as [Hok Hdup].
  assert (Hfresh : has_loop (<["delegate_to" := delegate_to]>
                      (<["args" := args]> (<["action" := action]> ∅))) = false).
  { unfold has_loop, dict_get. by rewrite !lookup_insert_ne, lookup_empty. }
  rewrite Hfresh in Hok, Hdup. split.
  - intros ?. apply Hdup. lia.
  - intros ?. apply Hok. lia.
Qed.

Lemma recognized_loop_key_with (name : string) :
  recognized_loop_key ("with_" +:+ name) = lookup_loader name.
Proof.
  unfold recognized_loop_key.
  change ("with_" +:+ name)
    with (String "w" (String "i" (String "t" (String "h" (String "_" name))))).
  cbn [string_drop].
  replace (String.prefix "with_"
             (String "w" (String "i" (String "t" (String "h" (String "_" name)))))) with true;
    [done|].
  cbn. by destruct name.
Qed.

Lemma loop_items_as_written action items :
  loops_as_written action items → loop_items action items = recognized_loop_items items.
Proof.
  unfold loops_as_written, loop_items, recognized_loop_items.
  induction 1 as [|kv items Hkv _ IH]; [done|].
  rewrite !filter_cons, IH, Hkv. by destruct (recognized_loop_key kv.1).
Qed.

(** C5, as the code has it. For a raw mapping that the argument parser
    accepts, that has no key called [loop], and in which [munge] takes for a
    loop exactly the recognized loop keys (the keys [with_<name>] with
    [<name>] registered): with two or more recognized loop keys [munge]
    raises the duplicate-loop error, naming one of them; with at most one it
    raises nothing. *)
Theorem munge_duplicate_loop (ds : list (string * value)) (action args delegate_to : value) :
  parse_args ds = Ok (action, args, delegate_to) →
  "loop" ∉ ds.*1 →
  loops_as_written action ds →
  (2 ≤ length (recognized_loop_items ds) →
     ∃ k, k ∈ (recognized_loop_items ds).*1
          ∧ munge ds = Raise (AnsibleError ("duplicate loop in task: " +:+ loop_name_of k)))
  ∧ (length (recognized_loop_items ds) ≤ 1 → ∃ new_ds, munge ds = Ok new_ds).
Proof.
  intros Hparse Hloop Hwritten.
  rewrite <- (loop_items_as_written action ds Hwritten).
  by apply (munge_loop_items_count ds action args delegate_to).
Qed.

End Munge.

(** Two loops in one task, and one loop in another. *)
Lemma munge_duplicate_loop_witness :
  (∃ k, k ∈ ["with_items"; "with_dict"]
        ∧ @munge small_world
            [("action", VStr "debug"); ("with_items", VList [VInt 1]); ("with_dict", VDict [])]
          = Raise (AnsibleError ("duplicate loop in task: " +:+ loop_name_of k)))
  ∧ (∃ new_ds, @munge small_world [("action", VStr "debug"); ("with_items", VList [VInt 1])]
               = Ok new_ds).
Proof.
  split.
  - apply (proj1 (@munge_duplicate_loop small_world
             [("action", VStr "debug"); ("with_items", VList [VInt 1]); ("with_dict", VDict [])]
             (VStr "debug") (VDict []) VNone eq_refl ltac:(by_decision)
             ltac:(repeat constructor))).
    vm_compute. lia.
  - apply (proj2 (@munge_duplicate_loop small_world
             [("action", VStr "debug"); ("with_items", VList [VInt 1])]
             (VStr "debug") (VDict []) VNone eq_refl ltac:(by_decision)
             ltac:(repeat constructor))).
    vm_compute. lia.
Defined.

(** C5 as stated fails: one recognized loop key next to a raw key called
    [loop] raises the duplicate-loop error. *)
Lemma munge_raw_loop_key_counterexample :
  let ds := [("action", VStr "debug"); ("loop", VStr "items"); ("with_items", VList [VInt 1])] in
  length (@recognized_loop_items small_world ds) = 1
  ∧ @loops_as_written small_world (VStr "debug") ds
  ∧ @munge small_world ds = Raise (AnsibleError "duplicate loop in task: items").
Proof. split_and!; [reflexivity|repeat constructor|reflexivity]. Qed.

(** A mapping outside [loops_as_written]: the bare plugin name [items]
    beside the one recognized loop key is taken for a second loop. *)
Example munge_bare_name_beside_loop :
  let ds := [("action", VStr "debug"); ("with_items", VList [VInt 1]); ("items", VList [VInt 2])] in
  length (@recognized_loop_items small_world ds) = 1
  ∧ ¬ @loops_as_written small_world (VStr "debug") ds
  ∧ @munge small_world ds = Raise (AnsibleError "duplicate loop in task: items").
Proof.
  intros ds. split_and!; [reflexivity| |reflexivity].
  intros Hwritten. apply Forall_cons in Hwritten as [_ Hwritten].
  apply Forall_cons in Hwritten as [_ Hwritten].
  apply Forall_cons in Hwritten as [Hitems _]. discriminate Hitems.
Qed.

(** C4 at a failing input: the key [items] does not start with [with_], yet
    [munge] turns it into the loop [items], because the name of a lookup
    plugin is left as it is by [replace]; the key itself is gone from the
    result. *)
Lemma munge_bare_plugin_name :
  let ds := [("action", VStr "debug"); ("items", VList [VInt 1; VInt 2])] in
  String.prefix "with_" "items" = false
  ∧ @loop_key small_world (VStr "debug") "items" = true
  ∧ ∃ new_ds, @munge small_world ds = Ok new_ds
              ∧ new_ds !! "loop" = Some (VStr "items")
              ∧ new_ds !! "loop_args" = Some (VList [VInt 1; VInt 2])
              ∧ new_ds !! "items" = None.
Proof.
  intros ds. split_and!; [reflexivity|reflexivity|].
  eexists. split; [reflexivity|]. split_and!; reflexivity.
Qed.

(** ** Serialisation *)

Section Serialisation.
Context `{W : World}.

Lemma field_names_NoDup : NoDup field_names.
Proof. by_decision. Qed.

Lemma wire_keys_no_fields :
  ("dep_chain" ∉ field_names) ∧ ("block" ∉ field_names) ∧ ("role" ∉ field_names).
Proof. split_and!; by_decision. Qed.

Lemma named_pairs_fst {A} (f : string → A) (names : list string) :
  ((fun name => (name, f name)) <$> names).*1 = names.
Proof.
  induction names as [|n names IH]; [done|].
  rewrite !fmap_cons. simpl. f_equal. apply IH.
Qed.

Lemma Base_serialize_lookup self name :
  name ∈ field_names → Base_serialize self !! name = Some (getattr self name).
Proof.
  intros Hin. unfold Base_serialize. apply elem_of_list_to_map_1.
  - rewrite named_pairs_fst. apply field_names_NoDup.
  - apply list_elem_of_fmap. by exists name.
Qed.

Lemma Base_serialize_lookup_None self name :
  name ∉ field_names → Base_serialize self !! name = None.
Proof.
  intros Hin. unfold Base_serialize. apply not_elem_of_list_to_map_1.
  by rewrite named_pairs_fst.
Qed.

Lemma serialize_dep_chain self :
  serialize self !! "dep_chain" = Some (VList (VObj <$> _dep_chain self)).
Proof.
  unfold serialize. generalize (Base_serialize self). intros base.
  destruct (_role self), (_block self);
    rewrite ?lookup_insert_ne by discriminate; apply lookup_insert_eq.
Qed.

Lemma serialize_block self :
  serialize self !! "block" = inst_serialize <$> _block self.
Proof.
  destruct wire_keys_no_fields as (_ & Hblock & _).
  apply (Base_serialize_lookup_None self) in Hblock.
  unfold serialize. revert Hblock. generalize (Base_serialize self). intros base Hblock.
  destruct (_role self), (_block self); cbn [fmap option_fmap option_map];
    rewrite ?lookup_insert_ne by discriminate;
    first [apply lookup_insert_eq | exact Hblock].
Qed.

Lemma serialize_role self :
  serialize self !! "role" = inst_serialize <$> _role self.
Proof.
  destruct wire_keys_no_fields as (_ & _ & Hrole).
  apply (Base_serialize_lookup_None self) in Hrole.
  unfold serialize. revert Hrole. generalize (Base_serialize self). intros base Hrole.
  destruct (_role self), (_block self); cbn [fmap option_fmap option_map];
    first [apply lookup_insert_eq | rewrite ?lookup_insert_ne by discriminate; exact Hrole].
Qed.

Lemma serialize_attribute self name :
  name ∈ field_names → serialize self !! name = Some (getattr self name).
Proof.
  intros Hin.
  destruct wire_keys_no_fields as (Hchain & Hblock & Hrole).
  assert (name ≠ "dep_chain" ∧ name ≠ "block" ∧ name ≠ "role") as (? & ? & ?)
    by (split_and!; intros ->; contradiction).
  apply (Base_serialize_lookup self) in Hin.
  unfold serialize. revert Hin. generalize (Base_serialize self). intros base Hin.
  destruct (_role self), (_block self);
    rewrite ?lookup_insert_ne by congruence; exact Hin.
Qed.

Lemma objects_of_refs (chain : list oid) : objects_of (VObj <$> chain) = Some chain.
Proof.
  induction chain as [|o chain IH]; [done|].
  rewrite fmap_cons. cbn [objects_of]. by rewrite IH.
Qed.

Lemma get_dep_chain_serialize self : get_dep_chain (serialize self) = Some (_dep_chain self).
Proof. unfold get_dep_chain. rewrite serialize_dep_chain. apply objects_of_refs. Qed.

Lemma drop_key_is_delete (key : string) (data : mapping) :
  (if bool_decide (is_Some (data !! key)) then delete key data else data) = delete key data.
Proof.
  case_bool_decide as Hkey; [done|].
  symmetry. apply delete_id. by apply eq_None_not_Some.
Qed.

Lemma get_vars_is_delete self : get_vars self = delete "when" (delete "tags" (serialize self)).
Proof. unfold get_vars. by rewrite !drop_key_is_delete. Qed.

(** C10. [get_vars] is the serialised task without [tags] and [when]: these
    two keys are absent, every other key of the serialised form is there with
    the same value, and so is every declared attribute other than the two,
    with the value the task holds. *)
Theorem get_vars_drops_tags_and_when (self : Task) :
  get_vars self !! "tags" = None
  ∧ get_vars self !! "when" = None
  ∧ (∀ k, k ≠ "tags" → k ≠ "when" → get_vars self !! k = serialize self !! k)
  ∧ (∀ name, name ∈ field_names → name ≠ "tags" → name ≠ "when" →
       get_vars self !! name = Some (getattr self name)).
Proof.
  rewrite get_vars_is_delete. split_and!.
  - rewrite lookup_delete_ne by discriminate. apply lookup_delete_eq.
  - apply lookup_delete_eq.
  - intros k Htags Hwhen. by rewrite !lookup_delete_ne.
  - intros name Hin Htags Hwhen. rewrite !lookup_delete_ne by done.
    by apply serialize_attribute.
Qed.

Lemma restore_lookup (data attrs : mapping) (names : list string) name v :
  name ∈ names → data !! name = Some v →
  foldr (fun name attrs =>
           match data !! name with
           | Some v => <[name := v]> attrs
           | None => attrs
           end) attrs names !! name = Some v.
Proof.
  intros Hin Hdata. induction names as [|n names IH]; [by apply elem_of_nil in Hin|].
  cbn [foldr]. destruct (decide (name = n)) as [<-|Hne].
  - rewrite Hdata. apply lookup_insert_eq.
  - apply elem_of_cons in Hin as [?|Hin]; [done|].
    destruct (data !! n); [rewrite lookup_insert_ne by done|]; by apply IH.
Qed.

Lemma Base_deserialize_getattr self data name v :
  name ∈ field_names → data !! name = Some v →
  getattr (Base_deserialize self data) name = v.
Proof.
  intros Hin Hdata. unfold getattr, dict_get, Base_deserialize, set_attributes.
  cbn [attributes]. by rewrite (restore_lookup data _ _ name v).
Qed.

Lemma Base_serialize_ext self1 self2 :
  (∀ name, name ∈ field_names → getattr self1 name = getattr self2 name) →
  Base_serialize self1 = Base_serialize self2.
Proof.
  intros Hsame. unfold Base_serialize. f_equal.
  apply list_fmap_ext. intros i name Hi. f_equal.
  apply Hsame. by apply list_elem_of_lookup_2 in Hi.
Qed.

(** [deserialize] goes through on every mapping whose [dep_chain], when it
    has one, is a list of objects. *)
Lemma deserialize_total self data :
  is_Some (get_dep_chain data) →
  ∃ new data', deserialize self data = Some (new, data')
    ∧ (data !! "block" = None → _block new = _block self)
    ∧ (data !! "role" = None → _role new = _role self).
Proof.
  intros [chain Hchain]. unfold deserialize, deserialize_nested.
  rewrite Hchain. cbn [mbind option_bind].
  destruct (truthy (dict_get data "block")) eqn:Hb.
  - destruct (truthy (dict_get (delete "block" data) "role")) eqn:Hr;
      cbn [mbind option_bind]; eexists _, _; (split; [reflexivity|]);
      unfold dict_get in Hb, Hr; (split; intros Hnone).
    + by rewrite Hnone in Hb.
    + by rewrite lookup_delete_ne, Hnone in Hr.
    + by rewrite Hnone in Hb.
    + done.
  - destruct (truthy (dict_get data "role")) eqn:Hr;
      cbn [mbind option_bind]; eexists _, _; (split; [reflexivity|]);
      unfold dict_get in Hr; (split; intros Hnone).
    + done.
    + by rewrite Hnone in Hr.
    + done.
    + done.
Qed.

Lemma dict_get_block self :
  dict_get (serialize self) "block"
  = match _block self with Some block => inst_serialize block | None => VNone end.
Proof. unfold dict_get. rewrite serialize_block. by destruct (_block self). Qed.

Lemma dict_get_role self :
  dict_get (serialize self) "role"
  = match _role self with Some role => inst_serialize role | None => VNone end.
Proof. unfold dict_get. rewrite serialize_role. by destruct (_role self). Qed.

Lemma dict_get_delete_ne (data : mapping) k k' :
  k ≠ k' → dict_get (delete k data) k' = dict_get data k'.
Proof. intros Hne. unfold dict_get. by rewrite lookup_delete_ne. Qed.

(** What the first part of [deserialize] makes of a serialised task whose
    payloads are true values. *)
Lemma deserialize_nested_serialize (fresh self : Task) :
  _block fresh = None → _role fresh = None →
  (∀ block, _block self = Some block → truthy (inst_serialize block) = true) →
  (∀ role, _role self = Some role → truthy (inst_serialize role) = true) →
  deserialize_nested fresh (serialize self)
  = Some (mkTask (attributes fresh)
            (Block_deserialize <$> (inst_serialize <$> _block self))
            (Role_deserialize <$> (inst_serialize <$> _role self))
            (_task_include fresh) (_dep_chain self),
          delete "role" (delete "block" (serialize self))).
Proof.
  intros Hfb Hfr Hblock Hrole. unfold deserialize_nested.
  rewrite get_dep_chain_serialize. cbn [mbind option_bind].
  rewrite !dict_get_block.
  assert (Hnb : _block self = None → delete "block" (serialize self) = serialize self).
  { intros Eb. apply delete_id. by rewrite serialize_block, Eb. }
  assert (Hnr : _role self = None →
                delete "role" (delete "block" (serialize self)) = delete "block" (serialize self)).
  { intros Er. apply delete_id. rewrite lookup_delete_ne by discriminate.
    by rewrite serialize_role, Er. }
  destruct (_block self) as [block|] eqn:Eb.
  - rewrite (Hblock block eq_refl). cbn beta iota zeta.
    rewrite !dict_get_delete_ne by discriminate. rewrite !dict_get_role.
    destruct (_role self) as [role|] eqn:Er.
    + by rewrite (Hrole role eq_refl).
    + cbn [truthy]. by rewrite Hfr, Hnr.
  - cbn [truthy]. cbn beta iota zeta. rewrite !dict_get_role.
    destruct (_role self) as [role|] eqn:Er.
    + rewrite (Hrole role eq_refl), Hfb. by rewrite (Hnb eq_refl).
    + cbn [truthy]. by rewrite Hfb, Hfr, (Hnr eq_refl), (Hnb eq_refl).
Qed.

Lemma Task_init_fields h block role task_include :
  _block (Task_init h block role task_include).1 = block
  ∧ _role (Task_init h block role task_include).1 = role
  ∧ _task_include (Task_init h block role task_include).1 = task_include
  ∧ _dep_chain (Task_init h block role task_include).1 = [].
Proof. unfold Task_init. by destruct (init_attributes _ _ _). Qed.

(** C2. A fresh task that deserialises what [serialize] made of a task has
    the same [get_vars] and the same block and role payloads as the
    original, provided the payloads [Block.serialize] and [Role.serialize]
    return are non-empty and survive their own round trip.  [deserialize]
    rebuilds the chain, the block and the role first, deletes the two keys,
    and only then restores the attributes; and it goes through on any
    mapping, with or without [block] and [role], leaving the field of an
    absent key as it was. *)
Theorem serialize_deserialize_roundtrip (h : heap) (self : Task) :
  (∀ block, _block self = Some block →
     truthy (inst_serialize block) = true
     ∧ inst_serialize (Block_deserialize (inst_serialize block)) = inst_serialize block) →
  (∀ role, _role self = Some role →
     truthy (inst_serialize role) = true
     ∧ inst_serialize (Role_deserialize (inst_serialize role)) = inst_serialize role) →
  let fresh := (Task_init h None None None).1 in
  (∃ new nested data',
     deserialize fresh (serialize self) = Some (new, data')
     ∧ get_vars new = get_vars self
     ∧ serialize new !! "block" = serialize self !! "block"
     ∧ serialize new !! "role" = serialize self !! "role"
     ∧ _block new = Block_deserialize <$> serialize self !! "block"
     ∧ _role new = Role_deserialize <$> serialize self !! "role"
     ∧ deserialize_nested fresh (serialize self) = Some (nested, data')
     ∧ _block nested = _block new ∧ _role nested = _role new
     ∧ attributes nested = attributes fresh
     ∧ data' !! "block" = None ∧ data' !! "role" = None
     ∧ new = Base_deserialize nested data')
  ∧ (∀ receiver data, is_Some (get_dep_chain data) →
       ∃ new data', deserialize receiver data = Some (new, data')
         ∧ (data !! "block" = None → _block new = _block receiver)
         ∧ (data !! "role" = None → _role new = _role receiver)).
Proof.
  intros Hblock Hrole fresh. split; [|intros; by apply deserialize_total].
  destruct (Task_init_fields h None None None) as (Hfb & Hfr & _ & _).
  fold fresh in Hfb, Hfr.
  pose proof (deserialize_nested_serialize fresh self Hfb Hfr
                (fun b Hb => proj1 (Hblock b Hb)) (fun r Hr => proj1 (Hrole r Hr))) as Hnested.
  set (nested := mkTask (attributes fresh)
                   (Block_deserialize <$> (inst_serialize <$> _block self))
                   (Role_deserialize <$> (inst_serialize <$> _role self))
                   (_task_include fresh) (_dep_chain self)) in *.
  set (data' := delete "role" (delete "block" (serialize self))) in *.
  set (new := Base_deserialize nested data').
  assert (Hser : serialize new = serialize self).
  { unfold serialize.
    assert (Hbase : Base_serialize new = Base_serialize self).
    { apply Base_serialize_ext. intros name Hin.
      apply Base_deserialize_getattr; [done|].
      destruct wire_keys_no_fields as (_ & ? & ?).
      unfold data'. rewrite !lookup_delete_ne by (intros <-; contradiction).
      by apply serialize_attribute. }
    rewrite Hbase. clear Hbase. generalize (Base_serialize self). intros base.
    change (_dep_chain new) with (_dep_chain self).
    change (_block new) with (Block_deserialize <$> (inst_serialize <$> _block self)).
    change (_role new) with (Role_deserialize <$> (inst_serialize <$> _role self)).
    destruct (_block self) as [block|]; destruct (_role self) as [role|];
      cbn [fmap option_fmap option_map];
      rewrite ?(proj2 (Hblock _ eq_refl)), ?(proj2 (Hrole _ eq_refl)); reflexivity. }
  exists new, nested, data'. split_and!.
  - unfold deserialize. rewrite Hnested. reflexivity.
  - by rewrite !get_vars_is_delete, Hser.
  - by rewrite Hser.
  - by rewrite Hser.
  - by rewrite serialize_block.
  - by rewrite serialize_role.
  - done.
  - done.
  - done.
  - done.
  - unfold data'. rewrite lookup_delete_ne by discriminate. apply lookup_delete_eq.
  - apply lookup_delete_eq.
  - done.
Qed.

(** C3, as the code has it. The serialised task holds every declared
    attribute, the block's and the role's own serialised payloads under
    [block] and [role] when the task has them, and under [dep_chain] the
    entries of the dependency chain themselves, by reference and in the order
    of the chain, not their payloads: with a non-empty chain the mapping is
    not self-contained.  The chain comes back from [deserialize] entry for
    entry in the same order. *)
Theorem serialize_keeps_chain_by_reference (self receiver : Task) :
  serialize self !! "dep_chain" = Some (VList (VObj <$> _dep_chain self))
  ∧ self_contained (VList (VObj <$> _dep_chain self))
    = match _dep_chain self with [] => true | _ => false end
  ∧ serialize self !! "block" = inst_serialize <$> _block self
  ∧ serialize self !! "role" = inst_serialize <$> _role self
  ∧ (∀ name, name ∈ field_names → serialize self !! name = Some (getattr self name))
  ∧ (∃ new data', deserialize receiver (serialize self) = Some (new, data')
                  ∧ _dep_chain new = _dep_chain self).
Proof.
  split_and!.
  - apply serialize_dep_chain.
  - by destruct (_dep_chain self).
  - apply serialize_block.
  - apply serialize_role.
  - apply serialize_attribute.
  - unfold deserialize, deserialize_nested. rewrite get_dep_chain_serialize.
    cbn [mbind option_bind].
    destruct (truthy _); destruct (truthy _); cbn [mbind option_bind];
      eexists _, _; (split; [reflexivity|done]).
Qed.

End Serialisation.

Lemma serialize_deserialize_roundtrip_witness :
  ∃ new data',
    @deserialize small_world (Task_init ∅ None None None).1 (@serialize small_world nested_task)
    = Some (new, data')
    ∧ @get_vars small_world new = @get_vars small_world nested_task
    ∧ _block new = Some 4 ∧ _role new = Some 7.
Proof.
  destruct (@serialize_deserialize_roundtrip small_world ∅ nested_task) as [Hround _].
  - intros block [= <-]. split; reflexivity.
  - intros role [= <-]. split; reflexivity.
  - destruct Hround as (new & nested & data' & Hde & Hvars & _ & _ & Hb & Hr & _).
    exists new, data'. split_and!.
    + exact Hde.
    + exact Hvars.
    + rewrite Hb, (@serialize_block small_world). reflexivity.
    + rewrite Hr, (@serialize_role small_world). reflexivity.
Defined.

(** The name of [nested_task] is a variable, its tags are not. *)
Lemma get_vars_drops_tags_and_when_witness :
  @get_vars small_world nested_task !! "name" = Some (VStr "Install nginx")
  ∧ @get_vars small_world nested_task !! "tags" = None.
Proof.
  split.
  - rewrite (proj2 (proj2 (proj2 (@get_vars_drops_tags_and_when small_world nested_task))) "name");
      [reflexivity|by_decision|discriminate|discriminate].
  - apply (@get_vars_drops_tags_and_when small_world nested_task).
Defined.

(** C3 as stated fails: the chain entry of a serialised task is the object
    itself, not its payload, and the mapping is not self-contained. *)
Lemma serialize_chain_entry_counterexample :
  let self := mkTask ∅ None None None [3] in
  @serialize small_world self !! "dep_chain" = Some (VList [VObj 3])
  ∧ self_contained (VList [VObj 3]) = false
  ∧ @serialize small_world self !! "dep_chain"
    ≠ Some (VList (@inst_serialize small_world <$> _dep_chain self)).
Proof.
  intros self. pose proof (@serialize_dep_chain small_world self) as Hchain.
  split_and!; [exact Hchain|reflexivity|].
  rewrite Hchain. discriminate.
Qed.

(** ** The store: defaults and copies *)

Lemma alloc_fresh (h : heap) v l h' :
  alloc h v = (l, h') → (l ∉ dom h) ∧ h' !! l = Some v ∧ h ⊆ h'.
Proof.
  unfold alloc. intros [= <- <-].
  pose proof (is_fresh (dom h)) as Hfresh. split_and!.
  - exact Hfresh.
  - apply lookup_insert_eq.
  - apply insert_subseteq. by apply not_elem_of_dom.
Qed.

Lemma instantiate_fresh (h : heap) d v h' :
  instantiate h d = (v, h') →
  h ⊆ h'
  ∧ if is_container d
    then ∃ l, v = VRef l ∧ (l ∉ dom h) ∧ h' !! l = Some d
    else v = d.
Proof.
  unfold instantiate. intros Hi.
  destruct d; cbn [is_container]; try (injection Hi as <- <-; done).
  - destruct (alloc h (VList vs)) as [l h1] eqn:Ha. injection Hi as <- <-.
    apply alloc_fresh in Ha as (? & ? & ?). eauto.
  - destruct (alloc h (VDict kvs)) as [l h1] eqn:Ha. injection Hi as <- <-.
    apply alloc_fresh in Ha as (? & ? & ?). eauto.
Qed.

Lemma init_attributes_spec fields : ∀ (h : heap) (attrs attrs' : mapping) (h' : heap),
  init_attributes fields h attrs = (attrs', h') →
  h ⊆ h'
  ∧ (∀ name, name ∉ fields.*1 → attrs' !! name = attrs !! name)
  ∧ (NoDup fields.*1 →
     ∀ name fa, (name, fa) ∈ fields →
       ∃ v, attrs' !! name = Some v ∧ fresh_instance h h' (fa_default fa) v).
Proof.
  induction fields as [|[n fa0] fields IH]; intros h attrs attrs' h' Hinit.
  - injection Hinit as <- <-. split_and!; [done|done|].
    intros _ name fa Hin. by apply elem_of_nil in Hin.
  - cbn [init_attributes] in Hinit.
    destruct (instantiate h (fa_default fa0)) as [v0 h1] eqn:Hv0.
    apply instantiate_fresh in Hv0 as [Hsub1 Hv0].
    apply IH in Hinit as (Hsub2 & Hkeep & Hfields).
    split_and!.
    + by transitivity h1.
    + intros name Hname. rewrite fmap_cons, not_elem_of_cons in Hname.
      destruct Hname as [Hne Hname]. cbn [fst] in Hne.
      rewrite (Hkeep name Hname). by rewrite lookup_insert_ne.
    + intros Hnd name fa Hin. rewrite fmap_cons in Hnd.
      apply NoDup_cons in Hnd as [Hn Hnd]. cbn [fst] in Hn.
      apply elem_of_cons in Hin as [[= -> ->]|Hin].
      * exists v0. split.
        -- rewrite (Hkeep n Hn). apply lookup_insert_eq.
        -- unfold fresh_instance. destruct (is_container (fa_default fa0)); [|done].
           destruct Hv0 as (l & -> & Hl & Hh1). exists l. split_and!; [done|done|].
           by apply (lookup_weaken h1).
      * destruct (Hfields Hnd name fa Hin) as (v & Hv & Hfresh).
        exists v. split; [done|].
        unfold fresh_instance in *. destruct (is_container (fa_default fa)); [|done].
        destruct Hfresh as (l & -> & Hl & Hh'). exists l. split_and!; [done| |done].
        intros Hdom. apply Hl. apply elem_of_dom. apply elem_of_dom in Hdom as [c Hc].
        exists c. by apply (lookup_weaken h).
Qed.

Lemma base_attributes_NoDup : NoDup base_attributes.*1.
Proof. apply field_names_NoDup. Qed.

Lemma Task_init_spec (h : heap) block role task_include :
  let self := (Task_init h block role task_include).1 in
  let h' := (Task_init h block role task_include).2 in
  h ⊆ h'
  ∧ ∀ name fa, (name, fa) ∈ base_attributes →
      ∃ v, attributes self !! name = Some v ∧ fresh_instance h h' (fa_default fa) v.
Proof.
  unfold Task_init.
  destruct (init_attributes base_attributes h ∅) as [attrs h'] eqn:Hinit.
  cbn [fst snd attributes].
  apply init_attributes_spec in Hinit as (Hsub & _ & Hfields).
  split; [done|]. apply Hfields, base_attributes_NoDup.
Qed.

(** C7. The default of a field is instantiated anew for each object: of two
    tasks built one after the other, a field with a container default (the
    [dict()] of [args], the empty list of [tags]) holds in each a container
    of its own with the content of the default, so that writing into the one
    of the first task changes nothing in the one of the second, nor the other
    way round; a field with a scalar default holds that scalar. *)
Theorem defaults_not_shared (h : heap) (b1 r1 i1 b2 r2 i2 : option oid) (name : string)
    (fa : FieldAttribute) :
  (name, fa) ∈ base_attributes →
  let t1 := (Task_init h b1 r1 i1).1 in
  let h1 := (Task_init h b1 r1 i1).2 in
  let t2 := (Task_init h1 b2 r2 i2).1 in
  let h2 := (Task_init h1 b2 r2 i2).2 in
  if is_container (fa_default fa)
  then ∃ l1 l2,
         attributes t1 !! name = Some (VRef l1)
         ∧ attributes t2 !! name = Some (VRef l2)
         ∧ l1 ≠ l2
         ∧ deref h2 (VRef l1) = fa_default fa
         ∧ deref h2 (VRef l2) = fa_default fa
         ∧ (∀ c, deref (<[l1 := c]> h2) (VRef l2) = fa_default fa)
         ∧ (∀ c, deref (<[l2 := c]> h2) (VRef l1) = fa_default fa)
  else attributes t1 !! name = Some (fa_default fa)
       ∧ attributes t2 !! name = Some (fa_default fa).
Proof.
  intros Hin t1 h1 t2 h2.
  destruct (Task_init_spec h b1 r1 i1) as [Hsub1 Hf1].
  destruct (Task_init_spec h1 b2 r2 i2) as [Hsub2 Hf2].
  fold t1 h1 in Hsub1, Hf1. fold t2 h2 in Hsub2, Hf2.
  destruct (Hf1 name fa Hin) as (v1 & Hv1 & Hfresh1).
  destruct (Hf2 name fa Hin) as (v2 & Hv2 & Hfresh2).
  unfold fresh_instance in *.
  destruct (is_container (fa_default fa)).
  - destruct Hfresh1 as (l1 & -> & Hl1 & Hc1). destruct Hfresh2 as (l2 & -> & Hl2 & Hc2).
    assert (Hne : l1 ≠ l2).
    { intros <-. apply Hl2. apply elem_of_dom. eauto. }
    assert (Hc1' : h2 !! l1 = Some (fa_default fa)) by by apply (lookup_weaken h1).
    exists l1, l2. split_and!; [done|done|done|..].
    + cbn [deref]. by rewrite Hc1'.
    + cbn [deref]. by rewrite Hc2.
    + intros c. cbn [deref]. rewrite lookup_insert_ne by done. by rewrite Hc2.
    + intros c. cbn [deref]. rewrite lookup_insert_ne by done. by rewrite Hc1'.
  - by subst.
Qed.

(** The [args] of two tasks built in an empty store. *)
Lemma defaults_not_shared_witness :
  ∃ l1 l2,
    attributes (Task_init ∅ None None None).1 !! "args" = Some (VRef l1)
    ∧ attributes (Task_init (Task_init ∅ None None None).2 None None None).1 !! "args"
      = Some (VRef l2)
    ∧ l1 ≠ l2.
Proof.
  pose proof (defaults_not_shared ∅ None None None None None None "args"
                (mkField isa_dict (VDict []) false) ltac:(apply list_elem_of_here)) as Hargs.
  cbn [is_container fa_default] in Hargs.
  destruct Hargs as (l1 & l2 & H1 & H2 & Hne & _).
  exists l1, l2. split_and!; [exact H1|exact H2|exact Hne].
Defined.

Section Copying.
Context `{W : World}.

Lemma copy_value_spec (h : heap) v v' h' :
  copy_value h v = (v', h') → h ⊆ h' ∧ copied h h' v v'.
Proof.
  unfold copy_value, copied. intros Hc.
  destruct v; try (injection Hc as <- <-; done).
  destruct (alloc h (deref h (VRef l))) as [l' h1] eqn:Ha. injection Hc as <- <-.
  apply alloc_fresh in Ha as (Hl' & Hh1 & Hsub). split; [done|].
  exists l'. split_and!; [done|done|].
  intros c Hc. rewrite Hh1. cbn [deref]. by rewrite Hc.
Qed.

Lemma copied_weaken (h0 h h' : heap) v v' : h0 ⊆ h → copied h h' v v' → copied h0 h' v v'.
Proof.
  intros Hsub. unfold copied. destruct v; try done.
  intros (l' & -> & Hl' & Hc). exists l'. split_and!; [done| |].
  - intros Hdom. apply Hl'. apply elem_of_dom. apply elem_of_dom in Hdom as [c ?].
    exists c. by apply (lookup_weaken h0).
  - intros c Hl. apply Hc. by apply (lookup_weaken h0).
Qed.

Lemma copied_extend (h h1 h' : heap) v v' : h1 ⊆ h' → copied h h1 v v' → copied h h' v v'.
Proof.
  intros Hsub. unfold copied. destruct v; try done.
  intros (l' & -> & Hl' & Hc). exists l'. split_and!; [done|done|].
  intros c Hl. apply (lookup_weaken h1); [|done]. by apply Hc.
Qed.

Lemma copy_attributes_spec (self : Task) names :
  ∀ (h : heap) (attrs attrs' : mapping) (h' : heap),
  copy_attributes names self h attrs = (attrs', h') →
  h ⊆ h'
  ∧ (NoDup names →
     ∀ name, name ∈ names →
       ∃ v', attrs' !! name = Some v' ∧ copied h h' (getattr self name) v')
  ∧ (∀ name, name ∉ names → attrs' !! name = attrs !! name).
Proof.
  induction names as [|n names IH]; intros h attrs attrs' h' Hcopy.
  - injection Hcopy as <- <-. split_and!; [done| |done].
    intros _ name Hin. by apply elem_of_nil in Hin.
  - cbn [copy_attributes] in Hcopy.
    destruct (copy_value h (getattr self n)) as [v0 h1] eqn:Hv0.
    apply copy_value_spec in Hv0 as [Hsub1 Hv0].
    apply IH in Hcopy as (Hsub2 & Hnames & Hkeep).
    split_and!.
    + by transitivity h1.
    + intros Hnd name Hin. apply NoDup_cons in Hnd as [Hn Hnd].
      apply elem_of_cons in Hin as [->|Hin].
      * exists v0. split.
        -- rewrite (Hkeep n Hn). apply lookup_insert_eq.
        -- by apply (copied_extend h h1).
      * destruct (Hnames Hnd name Hin) as (v' & Hv' & Hcopied).
        exists v'. split; [done|]. by apply (copied_weaken h h1).
    + intros name Hname. rewrite not_elem_of_cons in Hname. destruct Hname as [Hne Hname].
      rewrite (Hkeep name Hname). by rewrite lookup_insert_ne.
Qed.

Lemma Base_copy_spec (h : heap) (self : Task) :
  let new_me := (Base_copy h self).1 in
  let h' := (Base_copy h self).2 in
  h ⊆ h'
  ∧ ∀ name, name ∈ field_names →
      ∃ v', attributes new_me !! name = Some v' ∧ copied h h' (getattr self name) v'.
Proof.
  unfold Base_copy.
  pose proof (Task_init_spec h None None None) as [Hsub1 _].
  destruct (Task_init h None None None) as [new_me h1]. cbn [fst snd] in Hsub1.
  destruct (copy_attributes field_names self h1 (attributes new_me)) as [attrs h2] eqn:Hcopy.
  cbn [fst snd set_attributes attributes].
  apply copy_attributes_spec in Hcopy as (Hsub2 & Hnames & _).
  split; [by transitivity h1|].
  intros name Hin. destruct (Hnames field_names_NoDup name Hin) as (v' & Hv' & Hcopied).
  exists v'. split; [done|]. by apply (copied_weaken h h1).
Qed.

(** C9. The copy of a task refers to the same role object and to the same
    chain entries in the same order; its block and its task include are
    what the [copy()] of the original's returned; every container attribute
    of the original (its [args]) is a new container of the store with the
    same content, every other attribute is carried over, and nothing of the
    store the original lives in is changed: a write into a container of the
    copy leaves the original's as it was. *)
Theorem copy_independent (h : heap) (self : Task) :
  let new_me := (copy h self).1 in
  let h' := (copy h self).2 in
  _role new_me = _role self
  ∧ _dep_chain new_me = _dep_chain self
  ∧ _block new_me = inst_copy <$> _block self
  ∧ _task_include new_me = inst_copy <$> _task_include self
  ∧ h ⊆ h'
  ∧ (∀ name l c, name ∈ field_names →
       attributes self !! name = Some (VRef l) → h !! l = Some c →
       ∃ l', attributes new_me !! name = Some (VRef l')
             ∧ l' ≠ l ∧ (l' ∉ dom h)
             ∧ deref h' (VRef l') = c
             ∧ ∀ c', deref (<[l' := c']> h') (getattr self name) = c)
  ∧ (∀ name v, name ∈ field_names →
       attributes self !! name = Some v → (∀ l, v ≠ VRef l) →
       attributes new_me !! name = Some v).
Proof.
  intros new_me h'. subst new_me h'. unfold copy.
  pose proof (Base_copy_spec h self) as [Hsub Hattrs].
  destruct (Base_copy h self) as [base h']. cbn [fst snd] in *.
  split_and!; [done|done|done|done|done|..].
  - intros name l c Hin Hl Hc.
    destruct (Hattrs name Hin) as (v' & Hv' & Hcopied).
    unfold getattr, dict_get in *. rewrite Hl in *. cbn [default copied] in *.
    destruct Hcopied as (l' & -> & Hl' & Hcontent).
    assert (Hne : l' ≠ l).
    { intros ->. apply Hl'. apply elem_of_dom. eauto. }
    exists l'. split_and!; [done|done|done|..].
    + cbn [deref]. by rewrite (Hcontent c Hc).
    + intros c'. simpl. rewrite lookup_insert_ne by done.
      by rewrite (lookup_weaken h h' l c Hc Hsub).
  - intros name v Hin Hv Hnoref.
    destruct (Hattrs name Hin) as (v' & Hv' & Hcopied).
    unfold getattr, dict_get in Hcopied. rewrite Hv in Hcopied. cbn [default] in Hcopied.
    cbn [attributes]. unfold copied in Hcopied.
    destruct v as [| ?| ?| ?| ?| ?| l0| ?]; simpl in Hcopied; try (by subst).
    by destruct (Hnoref l0).
Qed.

End Copying.

(** A task of role 7 in block 4, from include 9, whose [args] is the
    container 0 of the store. *)
Lemma copy_independent_witness :
  let h : heap := {[ 0 := VDict [("msg", VStr "hi")] ]} in
  let self := mkTask {[ "args" := VRef 0 ]} (Some 4) (Some 7) (Some 9) [3; 2] in
  ∃ l', attributes (@copy small_world h self).1 !! "args" = Some (VRef l')
        ∧ l' ≠ 0
        ∧ ∀ c', deref (<[l' := c']> (@copy small_world h self).2) (VRef 0)
                = VDict [("msg", VStr "hi")].
Proof.
  intros h self.
  destruct (@copy_independent small_world h self) as (_ & _ & _ & _ & _ & Hargs & _).
  destruct (Hargs "args" 0 (VDict [("msg", VStr "hi")])) as (l' & Hl' & Hne & _ & _ & Hwrite).
  - by_decision.
  - reflexivity.
  - reflexivity.
  - exists l'. split_and!; [exact Hl'|exact Hne|exact Hwrite].
Defined.

(** ** More on normalisation *)

Section MungeResult.
Context `{W : World}.

(** The loop of [munge] writes the keys of the items the parser has not
    taken, and [loop] and [loop_args]; every other key is left alone. *)
Lemma munge_items_frame action items : ∀ new_ds out k,
  munge_items action items new_ds = Ok out →
  (∀ v, (k, v) ∈ items → parsed_key action k = true) →
  k ≠ "loop" → k ≠ "loop_args" →
  out !! k = new_ds !! k.
Proof.
  induction items as [|[k' v'] items IH]; intros new_ds out k Hrun Hk Hloop Hargs.
  - by injection Hrun as <-.
  - cbn [munge_items] in Hrun. unfold munge_item in Hrun. cbn [fst snd] in Hrun.
    assert (Hrest : ∀ v, (k, v) ∈ items → parsed_key action k = true).
    { intros v Hin. apply (Hk v). by apply list_elem_of_further. }
    destruct (parsed_key action k') eqn:Hparsed; cbn [mbind res_bind] in Hrun.
    { by apply (IH new_ds). }
    assert (Hne : k' ≠ k).
    { intros ->. rewrite (Hk v') in Hparsed; [done|apply list_elem_of_here]. }
    destruct (lookup_loader (loop_name_of k')).
    + unfold _munge_loop in Hrun.
      destruct (negb (is_None (dict_get new_ds "loop"))); cbn [mbind res_bind] in Hrun; [done|].
      rewrite (IH _ _ k Hrun Hrest Hloop Hargs).
      by rewrite !lookup_insert_ne.
    + cbn [mbind res_bind] in Hrun.
      rewrite (IH _ _ k Hrun Hrest Hloop Hargs).
      by rewrite lookup_insert_ne.
Qed.

Lemma munge_items_raises action items : ∀ new_ds e,
  munge_items action items new_ds = Raise e →
  ∃ k v, (k, v) ∈ items ∧ loop_key action k = true
         ∧ e = AnsibleError ("duplicate loop in task: " +:+ loop_name_of k).
Proof.
  induction items as [|[k v] items IH]; intros new_ds e Hrun; [done|].
  cbn [munge_items] in Hrun. unfold munge_item in Hrun. cbn [fst snd] in Hrun.
  assert (Hlater : ∀ nd, munge_items action items nd = Raise e →
            ∃ k0 v0, (k0, v0) ∈ (k, v) :: items ∧ loop_key action k0 = true
                     ∧ e = AnsibleError ("duplicate loop in task: " +:+ loop_name_of k0)).
  { intros nd Hnd. destruct (IH nd e Hnd) as (k0 & v0 & Hin & Hkey & He).
    exists k0, v0. split_and!; [by apply list_elem_of_further|done|done]. }
  destruct (parsed_key action k) eqn:Hparsed; cbn [mbind res_bind] in Hrun.
  { by apply (Hlater new_ds). }
  destruct (lookup_loader (loop_name_of k)) eqn:Hplugin.
  - unfold _munge_loop in Hrun.
    destruct (negb (is_None (dict_get new_ds "loop"))); cbn [mbind res_bind] in Hrun.
    + injection Hrun as <-. exists k, v. split_and!; [apply list_elem_of_here| |done].
      unfold loop_key. by rewrite Hparsed, Hplugin.
    + by apply (Hlater _ Hrun).
  - cbn [mbind res_bind] in Hrun. by apply (Hlater _ Hrun).
Qed.

(** X1. When [munge] succeeds, the action, the arguments and the delegate of
    its result are the ones the argument parser returned, whatever the raw
    mapping holds under these keys, and the legacy keys [local_action] and
    [shell] are not in the result. *)
Theorem munge_keeps_parsed (ds : list (string * value)) (action args delegate_to : value)
    (new_ds : mapping) :
  parse_args ds = Ok (action, args, delegate_to) →
  munge ds = Ok new_ds →
  new_ds !! "action" = Some action
  ∧ new_ds !! "args" = Some args
  ∧ new_ds !! "delegate_to" = Some delegate_to
  ∧ new_ds !! "local_action" = None
  ∧ new_ds !! "shell" = None.
Proof.
  intros Hparse Hrun. unfold munge in Hrun. rewrite Hparse in Hrun.
  simpl in Hrun.
  assert (Hshell : parsed_key action "shell" = true).
  { unfold parsed_key. by rewrite orb_true_r. }
  split_and!.
  - by rewrite (munge_items_frame _ _ _ _ "action" Hrun).
  - by rewrite (munge_items_frame _ _ _ _ "args" Hrun).
  - by rewrite (munge_items_frame _ _ _ _ "delegate_to" Hrun).
  - by rewrite (munge_items_frame _ _ _ _ "local_action" Hrun).
  - by rewrite (munge_items_frame _ _ _ _ "shell" Hrun).
Qed.

(** X2. [munge] fails in two ways only: with the error of the argument
    parser, or with the duplicate-loop error naming a loop key of the raw
    mapping. *)
Theorem munge_errors (ds : list (string * value)) (e : exn) :
  munge ds = Raise e →
  parse_args ds = Raise e
  ∨ ∃ k v, (k, v) ∈ ds
           ∧ lookup_loader (loop_name_of k) = true
           ∧ e = AnsibleError ("duplicate loop in task: " +:+ loop_name_of k).
Proof.
  unfold munge. intros Hrun.
  destruct (parse_args ds) as [[[action args] delegate_to]|e'] eqn:Hparse;
    simpl in Hrun.
  - right. destruct (munge_items_raises _ _ _ _ Hrun) as (k & v & Hin & Hkey & He).
    exists k, v. split_and!; [done| |done].
    unfold loop_key in Hkey. by apply andb_true_iff in Hkey as [_ ?].
  - left. by injection Hrun as <-.
Qed.

Lemma munge_items_pass_through action items : ∀ new_ds out k v,
  munge_items action items new_ds = Ok out →
  NoDup items.*1 → (k, v) ∈ items →
  parsed_key action k = false → lookup_loader (loop_name_of k) = false →
  k ≠ "loop" → k ≠ "loop_args" →
  out !! k = Some v.
Proof.
  induction items as [|[k' v'] items IH];
    intros new_ds out k v Hrun Hnd Hin Hparsed Hplugin Hloop Hargs.
  - by apply elem_of_nil in Hin.
  - rewrite fmap_cons in Hnd. apply NoDup_cons in Hnd as [Hfirst Hnd]. cbn [fst] in Hfirst.
    cbn [munge_items] in Hrun.
    apply elem_of_cons in Hin as [[= <- <-]|Hin].
    + unfold munge_item in Hrun. cbn [fst snd] in Hrun.
      rewrite Hparsed, Hplugin in Hrun. cbn [mbind res_bind] in Hrun.
      rewrite (munge_items_frame _ _ _ _ k Hrun); [apply lookup_insert_eq| |done|done].
      intros v0 Hv0. destruct Hfirst. apply list_elem_of_fmap. by exists (k, v0).
    + destruct (munge_item action new_ds (k', v')) as [nd|] eqn:Hitem;
        cbn [mbind res_bind] in Hrun; [|done].
      by apply (IH nd).
Qed.

(** X3. When [munge] succeeds, a key that the parser has not taken, that is
    no loop key and is not called [loop] or [loop_args] is in the result with
    the value it has in the raw mapping. *)
Theorem munge_pass_through (ds : list (string * value)) (action args delegate_to : value)
    (new_ds : mapping) (k : string) (v : value) :
  parse_args ds = Ok (action, args, delegate_to) →
  munge ds = Ok new_ds →
  NoDup ds.*1 → (k, v) ∈ ds →
  parsed_key action k = false → lookup_loader (loop_name_of k) = false →
  k ≠ "loop" → k ≠ "loop_args" →
  new_ds !! k = Some v.
Proof.
  intros Hparse Hrun. unfold munge in Hrun. rewrite Hparse in Hrun.
  simpl in Hrun. by apply (munge_items_pass_through _ _ _ _ _ _ Hrun).
Qed.

Lemma munge_items_after_loop action items : ∀ new_ds out,
  munge_items action items new_ds = Ok out →
  has_loop new_ds = true →
  "loop" ∉ items.*1 → "loop_args" ∉ items.*1 →
  out !! "loop" = new_ds !! "loop" ∧ out !! "loop_args" = new_ds !! "loop_args".
Proof.
  induction items as [|[k v] items IH]; intros new_ds out Hrun Harmed Hloop Hargs.
  - by injection Hrun as <-.
  - rewrite fmap_cons, not_elem_of_cons in Hloop, Hargs.
    destruct Hloop as [Hk1 Hloop]. destruct Hargs as [Hk2 Hargs]. cbn [fst] in Hk1, Hk2.
    cbn [munge_items] in Hrun. unfold munge_item in Hrun. cbn [fst snd] in Hrun.
    destruct (parsed_key action k); cbn [mbind res_bind] in Hrun.
    { by apply IH. }
    destruct (lookup_loader (loop_name_of k)).
    + unfold _munge_loop in Hrun. fold (has_loop new_ds) in Hrun.
      by rewrite Harmed in Hrun.
    + cbn [mbind res_bind] in Hrun.
      destruct (IH _ _ Hrun) as [H1 H2]; [by rewrite has_loop_insert_ne|done|done|].
      rewrite H1, H2. by rewrite !lookup_insert_ne.
Qed.

Lemma munge_items_loop action items : ∀ new_ds out k v,
  munge_items action items new_ds = Ok out →
  "loop" ∉ items.*1 → "loop_args" ∉ items.*1 →
  (k, v) ∈ items → loop_key action k = true →
  out !! "loop" = Some (VStr (loop_name_of k)) ∧ out !! "loop_args" = Some v.
Proof.
  induction items as [|[k' v'] items IH]; intros new_ds out k v Hrun Hloop Hargs Hin Hkey.
  - by apply elem_of_nil in Hin.
  - rewrite fmap_cons, not_elem_of_cons in Hloop, Hargs.
    destruct Hloop as [Hk1 Hloop]. destruct Hargs as [Hk2 Hargs]. cbn [fst] in Hk1, Hk2.
    cbn [munge_items] in Hrun.
    apply elem_of_cons in Hin as [[= <- <-]|Hin].
    + unfold munge_item in Hrun. cbn [fst snd] in Hrun.
      unfold loop_key in Hkey. apply andb_true_iff in Hkey as [Hparsed Hplugin].
      apply negb_true_iff in Hparsed. rewrite Hparsed, Hplugin in Hrun.
      unfold _munge_loop in Hrun.
      destruct (negb (is_None (dict_get new_ds "loop"))); cbn [mbind res_bind] in Hrun; [done|].
      destruct (munge_items_after_loop _ _ _ _ Hrun) as [H1 H2];
        [apply has_loop_after_munge_loop|done|done|].
      rewrite H1, H2. rewrite lookup_insert_ne by done.
      by rewrite !lookup_insert_eq.
    + destruct (munge_item action new_ds (k', v')) as [nd|] eqn:Hitem;
        cbn [mbind res_bind] in Hrun; [|done].
      by apply (IH nd).
Qed.

(** X4. When [munge] succeeds on a raw mapping without keys called [loop] or
    [loop_args], a loop key [k] with value [v] ends up as [loop], holding [k]
    without its [with_], and [loop_args], holding [v]. *)
Theorem munge_converts_loop (ds : list (string * value)) (action args delegate_to : value)
    (new_ds : mapping) (k : string) (v : value) :
  parse_args ds = Ok (action, args, delegate_to) →
  munge ds = Ok new_ds →
  "loop" ∉ ds.*1 → "loop_args" ∉ ds.*1 →
  (k, v) ∈ ds → loop_key action k = true →
  new_ds !! "loop" = Some (VStr (loop_name_of k)) ∧ new_ds !! "loop_args" = Some v.
Proof.
  intros Hparse Hrun. unfold munge in Hrun. rewrite Hparse in Hrun.
  simpl in Hrun. by apply (munge_items_loop _ _ _ _ _ _ Hrun).
Qed.

End MungeResult.

(** A task with a loop, a legacy key and a key of its own. *)
Lemma munge_keeps_parsed_witness :
  ∃ new_ds,
    @munge small_world
      [("action", VStr "debug"); ("local_action", VStr "ping"); ("with_items", VList [VInt 1])]
    = Ok new_ds
    ∧ new_ds !! "action" = Some (VStr "debug")
    ∧ new_ds !! "local_action" = None.
Proof.
  eexists. split; [reflexivity|].
  destruct (@munge_keeps_parsed small_world
              [("action", VStr "debug"); ("local_action", VStr "ping");
               ("with_items", VList [VInt 1])]
              (VStr "debug") (VDict []) VNone _ eq_refl eq_refl) as (Ha & _ & _ & Hl & _).
  split; [exact Ha|exact Hl].
Defined.

(** A task without an action, and a task with two loops. *)
Lemma munge_errors_witness :
  (@parse_args small_world [("with_items", VList [])] = Raise (Raised "no action detected in task")
   ∨ ∃ k v, (k, v) ∈ [("with_items", VList [])]
            ∧ @lookup_loader small_world (loop_name_of k) = true
            ∧ Raised "no action detected in task"
              = AnsibleError ("duplicate loop in task: " +:+ loop_name_of k))
  ∧ (@parse_args small_world
       [("action", VStr "debug"); ("with_items", VList []); ("with_dict", VDict [])]
     = Raise (AnsibleError "duplicate loop in task: dict")
     ∨ ∃ k v, (k, v) ∈ [("action", VStr "debug"); ("with_items", VList []); ("with_dict", VDict [])]
              ∧ @lookup_loader small_world (loop_name_of k) = true
              ∧ AnsibleError "duplicate loop in task: dict"
                = AnsibleError ("duplicate loop in task: " +:+ loop_name_of k)).
Proof.
  split.
  - apply (@munge_errors small_world [("with_items", VList [])]). reflexivity.
  - apply (@munge_errors small_world
             [("action", VStr "debug"); ("with_items", VList []); ("with_dict", VDict [])]).
    reflexivity.
Defined.

Lemma munge_pass_through_witness :
  ∃ new_ds,
    @munge small_world
      [("action", VStr "debug"); ("register", VStr "out"); ("with_items", VList [VInt 1])]
    = Ok new_ds
    ∧ new_ds !! "register" = Some (VStr "out").
Proof.
  eexists. split; [reflexivity|].
  apply (@munge_pass_through small_world
           [("action", VStr "debug"); ("register", VStr "out"); ("with_items", VList [VInt 1])]
           (VStr "debug") (VDict []) VNone _ "register" (VStr "out") eq_refl eq_refl).
  - by_decision.
  - in_list.
  - reflexivity.
  - reflexivity.
  - discriminate.
  - discriminate.
Defined.

Lemma munge_converts_loop_witness :
  ∃ new_ds,
    @munge small_world
      [("action", VStr "debug"); ("register", VStr "out"); ("with_items", VList [VInt 1])]
    = Ok new_ds
    ∧ new_ds !! "loop" = Some (VStr "items")
    ∧ new_ds !! "loop_args" = Some (VList [VInt 1]).
Proof.
  eexists. split; [reflexivity|].
  apply (@munge_converts_loop small_world
           [("action", VStr "debug"); ("register", VStr "out"); ("with_items", VList [VInt 1])]
           (VStr "debug") (VDict []) VNone _ "with_items" (VList [VInt 1]) eq_refl eq_refl).
  - by_decision.
  - by_decision.
  - in_list.
  - reflexivity.
Defined.

(** ** Loop names *)

Section LoopNames.
Context `{W : World}.

Lemma str_contains_tail old c s :
  str_contains old (String c s) = false →
  String.prefix old (String c s) = false ∧ str_contains old s = false.
Proof. cbn [str_contains]. intros H. by apply orb_false_iff in H. Qed.

(** Text without an occurrence of a non-empty [old] is left as it is. *)
Lemma replace_from_absent (old new : string) : ∀ fuel s,
  str_contains old s = false → replace_from fuel old new s = s.
Proof.
  induction fuel as [|fuel IH]; intros s Hs; [done|].
  destruct s as [|c s]; [done|]. cbn [replace_from].
  apply str_contains_tail in Hs as [Hprefix Hs].
  rewrite Hprefix. by rewrite IH.
Qed.

Lemma replace_from_hit fuel old new c s :
  String.prefix old (String c s) = true →
  replace_from (S fuel) old new (String c s)
  = new +:+ replace_from fuel old new (string_drop (String.length old) (String c s)).
Proof. intros Hprefix. cbn [replace_from]. by rewrite Hprefix. Qed.

(** X5. For a plugin name in which [with_] does not occur, the keys
    [with_<name>] and [<name>] both stand for the plugin [<name>]: a key the
    parser has not taken is a loop key in either spelling exactly when the
    plugin is registered. *)
Theorem loop_name_of_with (action : value) (name : string) :
  str_contains "with_" name = false →
  loop_name_of ("with_" +:+ name) = name
  ∧ loop_name_of name = name
  ∧ (parsed_key action ("with_" +:+ name) = false →
       loop_key action ("with_" +:+ name) = lookup_loader name)
  ∧ (parsed_key action name = false → loop_key action name = lookup_loader name).
Proof.
  intros Hname.
  assert (H1 : loop_name_of ("with_" +:+ name) = name).
  { unfold loop_name_of, str_replace.
    change ("with_" +:+ name)
      with (String "w" (String "i" (String "t" (String "h" (String "_" name))))).
    cbn [String.length]. rewrite replace_from_hit.
    - cbn [String.length string_drop].
      rewrite (replace_from_absent "with_" "" _ name Hname). reflexivity.
    - cbn. by destruct name. }
  assert (H2 : loop_name_of name = name).
  { unfold loop_name_of, str_replace. by apply replace_from_absent. }
  split_and!; [done|done|..].
  - intros Hp. unfold loop_key. by rewrite Hp, H1.
  - intros Hp. unfold loop_key. by rewrite Hp, H2.
Qed.

End LoopNames.

Lemma loop_name_of_with_witness :
  @loop_name_of "with_first_found" = "first_found"
  ∧ @loop_name_of "first_found" = "first_found".
Proof.
  destruct (@loop_name_of_with small_world VNone "first_found" eq_refl) as (H1 & H2 & _).
  split; [exact H1|exact H2].
Defined.

(** ** More on serialisation *)

Section Wire.
Context `{W : World}.

Lemma serialize_other self k :
  k ∉ field_names → k ≠ "dep_chain" → k ≠ "block" → k ≠ "role" →
  serialize self !! k = None.
Proof.
  intros Hk Hchain Hblock Hrole.
  apply (Base_serialize_lookup_None self) in Hk.
  unfold serialize. revert Hk. generalize (Base_serialize self). intros base Hk.
  destruct (_role self), (_block self);
    rewrite ?lookup_insert_ne by congruence; exact Hk.
Qed.

(** X6. The keys of a serialised task are the declared attributes,
    [dep_chain], [block] when the task has a block and [role] when it has a
    role, and no other: neither the task include nor the loader is in it. *)
Theorem serialize_keys (self : Task) (k : string) :
  is_Some (serialize self !! k) ↔
    k ∈ field_names
    ∨ k = "dep_chain"
    ∨ (k = "block" ∧ is_Some (_block self))
    ∨ (k = "role" ∧ is_Some (_role self)).
Proof.
  split.
  - intros Hsome.
    destruct (decide (k ∈ field_names)) as [?|Hk]; [by left|].
    destruct (decide (k = "dep_chain")) as [?|Hchain]; [by right; left|].
    destruct (decide (k = "block")) as [->|Hblock].
    { right; right; left. split; [done|].
      rewrite serialize_block in Hsome.
      destruct (_block self); [by eexists|destruct Hsome as [? [=]]]. }
    destruct (decide (k = "role")) as [->|Hrole].
    { right; right; right. split; [done|].
      rewrite serialize_role in Hsome.
      destruct (_role self); [by eexists|destruct Hsome as [? [=]]]. }
    rewrite serialize_other in Hsome by done. destruct Hsome as [? [=]].
  - intros [Hk|[->|[[-> [b Hb]]|[-> [r Hr]]]]].
    + by rewrite serialize_attribute.
    + by rewrite serialize_dep_chain.
    + by rewrite serialize_block, Hb.
    + by rewrite serialize_role, Hr.
Qed.

(** X7. The task include does not travel: [serialize] does not look at it,
    and [deserialize] leaves the one of the receiving task as it is. *)
Theorem task_include_not_serialized (self receiver : Task) (other : option oid)
    (data data' : mapping) (new : Task) :
  deserialize receiver data = Some (new, data') →
  _task_include new = _task_include receiver
  ∧ serialize (mkTask (attributes self) (_block self) (_role self) other (_dep_chain self))
    = serialize self.
Proof.
  intros Hde. split; [|reflexivity].
  unfold deserialize, deserialize_nested in Hde.
  destruct (get_dep_chain data) as [chain|]; [|done]. cbn [mbind option_bind] in Hde.
  destruct (truthy (dict_get data "block")); cbn beta iota zeta in Hde;
    destruct (truthy _) in Hde; cbn [mbind option_bind] in Hde;
    by injection Hde as <- _.
Qed.

(** X8. [deserialize] rebuilds the block only from a payload that is a true
    value, and then deletes the key from the mapping it was given; with no
    payload, or with an empty or [None] one, the receiving task keeps the
    block it had and the mapping keeps the key.  The same holds for the
    role. *)
Theorem deserialize_payloads (receiver : Task) (data data' : mapping) (new : Task) :
  deserialize receiver data = Some (new, data') →
  (if truthy (dict_get data "block")
   then _block new = Some (Block_deserialize (dict_get data "block")) ∧ data' !! "block" = None
   else _block new = _block receiver ∧ data' !! "block" = data !! "block")
  ∧ (if truthy (dict_get data "role")
     then _role new = Some (Role_deserialize (dict_get data "role")) ∧ data' !! "role" = None
     else _role new = _role receiver ∧ data' !! "role" = data !! "role").
Proof.
  intros Hde. unfold deserialize, deserialize_nested in Hde.
  destruct (get_dep_chain data) as [chain|]; [|done]. cbn [mbind option_bind] in Hde.
  destruct (truthy (dict_get data "block")) eqn:Hb; cbn beta iota zeta in Hde.
  - rewrite dict_get_delete_ne in Hde by discriminate.
    destruct (truthy (dict_get data "role")) eqn:Hr; cbn [mbind option_bind] in Hde;
      injection Hde as <- <-; cbn [_block _role Base_deserialize set_attributes].
    + split_and!; [done| |done|apply lookup_delete_eq].
      rewrite lookup_delete_ne by discriminate. apply lookup_delete_eq.
    + split_and!; [done|apply lookup_delete_eq|done|].
      by rewrite lookup_delete_ne.
  - destruct (truthy (dict_get data "role")) eqn:Hr; cbn [mbind option_bind] in Hde;
      injection Hde as <- <-; cbn [_block _role Base_deserialize set_attributes].
    + split_and!; [done| |done|apply lookup_delete_eq].
      by rewrite lookup_delete_ne.
    + by split_and!.
Qed.

(** X9. [deserialize] replaces the dependency chain of the receiving task by
    the one of the mapping, and by the empty chain when the mapping has no
    [dep_chain]. *)
Theorem deserialize_dep_chain (receiver : Task) (data data' : mapping) (new : Task) :
  deserialize receiver data = Some (new, data') →
  (data !! "dep_chain" = None → _dep_chain new = [])
  ∧ (∀ chain, data !! "dep_chain" = Some (VList (VObj <$> chain)) → _dep_chain new = chain).
Proof.
  intros Hde. unfold deserialize, deserialize_nested in Hde.
  destruct (get_dep_chain data) as [chain0|] eqn:Hchain; [|done].
  cbn [mbind option_bind] in Hde.
  assert (Hnew : _dep_chain new = chain0).
  { destruct (truthy (dict_get data "block")); cbn beta iota zeta in Hde;
      destruct (truthy _) in Hde; cbn [mbind option_bind] in Hde;
      by injection Hde as <- _. }
  unfold get_dep_chain in Hchain. split.
  - intros Hnone. rewrite Hnone in Hchain. by injection Hchain as <-.
  - intros chain Hsome. rewrite Hsome, objects_of_refs in Hchain. by injection Hchain as <-.
Qed.

(** X10. A copy of a task serialises to the same chain entry and the same
    role payload as the task, and to the payload of the copied block: the
    copy is one more task of the same role behind the same chain. *)
Theorem copy_serialize (h : heap) (self : Task) :
  let new_me := (copy h self).1 in
  serialize new_me !! "dep_chain" = serialize self !! "dep_chain"
  ∧ serialize new_me !! "role" = serialize self !! "role"
  ∧ serialize new_me !! "block" = inst_serialize <$> (inst_copy <$> _block self)
  ∧ get_vars new_me !! "role" = get_vars self !! "role"
  ∧ get_vars new_me !! "dep_chain" = get_vars self !! "dep_chain".
Proof.
  intros new_me.
  assert (Hfields : _dep_chain new_me = _dep_chain self ∧ _role new_me = _role self
                    ∧ _block new_me = inst_copy <$> _block self).
  { subst new_me. unfold copy. by destruct (Base_copy h self). }
  destruct Hfields as (Hchain & Hrole & Hblock).
  rewrite !get_vars_is_delete, !lookup_delete_ne by discriminate.
  rewrite !serialize_dep_chain, !serialize_role, !serialize_block.
  by rewrite Hchain, Hrole, Hblock.
Qed.

End Wire.

Lemma task_include_not_serialized_witness :
  ∃ new data',
    @deserialize small_world
      (mkTask ∅ None None (Some 9) []) (@serialize small_world nested_task) = Some (new, data')
    ∧ _task_include new = Some 9.
Proof.
  destruct (@deserialize_total small_world (mkTask ∅ None None (Some 9) [])
              (@serialize small_world nested_task)) as (new & data' & Hde & _).
  { rewrite (@get_dep_chain_serialize small_world). by eexists. }
  exists new, data'. split; [exact Hde|].
  exact (proj1 (@task_include_not_serialized small_world nested_task _ None _ _ _ Hde)).
Defined.

(** A mapping whose block payload is an empty dict and which has no role. *)
Lemma deserialize_payloads_witness :
  ∃ new data',
    @deserialize small_world (mkTask ∅ (Some 5) None None []) {[ "block" := VDict [] ]}
    = Some (new, data')
    ∧ _block new = Some 5 ∧ data' !! "block" = Some (VDict []).
Proof.
  eexists _, _. split; [reflexivity|].
  exact (proj1 (@deserialize_payloads small_world (mkTask ∅ (Some 5) None None [])
                  {[ "block" := VDict [] ]} _ _ eq_refl)).
Defined.

(** A receiver behind a chain and a mapping without one. *)
Lemma deserialize_dep_chain_witness :
  ∃ new data',
    @deserialize small_world (mkTask ∅ None None None [3; 2]) ∅ = Some (new, data')
    ∧ _dep_chain new = [].
Proof.
  destruct (@deserialize small_world (mkTask ∅ None None None [3; 2]) ∅)
    as [[new data']|] eqn:Hde; [|vm_compute in Hde; discriminate].
  exists new, data'. split; [reflexivity|].
  apply (proj1 (@deserialize_dep_chain small_world _ _ _ _ Hde)). reflexivity.
Defined.

(** ** Order of the dependency chain *)

Section ChainOrder.
Context `{W : World}.

Lemma existsb_Permutation {A} (f : A → bool) (xs ys : list A) :
  xs ≡ₚ ys → existsb f xs = existsb f ys.
Proof.
  induction 1 as [|x xs ys _ IH|x y xs|xs ys zs _ IH1 _ IH2]; simpl.
  - done.
  - by rewrite IH.
  - by destruct (f x), (f y).
  - by rewrite IH1.
Qed.

Lemma forallb_Permutation {A} (f : A → bool) (xs ys : list A) :
  xs ≡ₚ ys → forallb f xs = forallb f ys.
Proof.
  induction 1 as [|x xs ys _ IH|x y xs|xs ys zs _ IH1 _ IH2]; simpl.
  - done.
  - by rewrite IH.
  - by destruct (f x), (f y).
  - by rewrite IH1.
Qed.

(** X11. The order of the dependency chain does not matter to
    [evaluate_tags]: a task behind the same entries in another order is
    selected or not as before, as long as the match of its own tags is the
    same. *)
Theorem evaluate_tags_any_order (self : Task) (chain : list oid)
    (only_tags skip_tags : list string) (all_vars : mapping) :
  chain ≡ₚ _dep_chain self →
  Taggable_evaluate_tags (with_dep_chain self chain) only_tags skip_tags all_vars
  = Taggable_evaluate_tags self only_tags skip_tags all_vars →
  evaluate_tags (with_dep_chain self chain) only_tags skip_tags all_vars
  = evaluate_tags self only_tags skip_tags all_vars.
Proof.
  intros Hperm Hown. unfold evaluate_tags. rewrite Hown, !foldl_orb.
  cbn [with_dep_chain _dep_chain _block].
  by rewrite (existsb_Permutation _ _ _ Hperm).
Qed.

Lemma chain_evaluate_conditional_returns deps all_vars :
  (∀ dep, dep ∈ deps → ∃ b, inst_evaluate_conditional dep all_vars = Ok b) →
  chain_evaluate_conditional deps all_vars = Ok (forallb (guard_value all_vars) deps).
Proof.
  induction deps as [|dep deps IH]; intros Hret; [done|].
  cbn [chain_evaluate_conditional forallb]. unfold guard_value at 1.
  destruct (Hret dep) as [b Hb]; [apply list_elem_of_here|].
  rewrite Hb. cbn [mbind res_bind].
  destruct b; cbn [negb andb]; [|done].
  apply IH. intros dep' Hin. apply Hret. by apply list_elem_of_further.
Qed.

(** X12. When no guard of the dependency chain raises, the order of the
    chain does not matter to [evaluate_conditional] either, as long as the
    task's own guard evaluates the same. *)
Theorem evaluate_conditional_any_order (self : Task) (chain : list oid) (all_vars : mapping) :
  chain ≡ₚ _dep_chain self →
  (∀ dep, dep ∈ _dep_chain self → ∃ b, inst_evaluate_conditional dep all_vars = Ok b) →
  Conditional_evaluate_conditional (with_dep_chain self chain) all_vars
  = Conditional_evaluate_conditional self all_vars →
  evaluate_conditional (with_dep_chain self chain) all_vars
  = evaluate_conditional self all_vars.
Proof.
  intros Hperm Hret Hown. unfold evaluate_conditional. rewrite Hown.
  cbn [with_dep_chain _dep_chain _block].
  rewrite !chain_evaluate_conditional_returns.
  - by rewrite (forallb_Permutation _ _ _ Hperm).
  - done.
  - intros dep Hin. apply Hret. by rewrite <- Hperm.
Qed.

End ChainOrder.

(** With a guard that raises the order shows: the false guard of scope 0
    is reached before the malformed one of scope 1, or after it. *)
Example evaluate_conditional_order_shows :
  @evaluate_conditional small_world (mkTask ∅ None None None [0; 1]) ∅ = Ok false
  ∧ @evaluate_conditional small_world (mkTask ∅ None None None [1; 0]) ∅
    = Raise (Raised "error while evaluating conditional").
Proof. split; reflexivity. Qed.

Lemma evaluate_tags_any_order_witness :
  @evaluate_tags small_world (mkTask ∅ None None None [3; 0]) [] [] ∅
  = @evaluate_tags small_world (mkTask ∅ None None None [0; 3]) [] [] ∅.
Proof.
  apply (@evaluate_tags_any_order small_world (mkTask ∅ None None None [0; 3]) [3; 0] [] [] ∅).
  - apply Permutation_swap.
  - reflexivity.
Defined.

Lemma evaluate_conditional_any_order_witness :
  @evaluate_conditional small_world (mkTask ∅ None None None [3; 0]) ∅
  = @evaluate_conditional small_world (mkTask ∅ None None None [0; 3]) ∅.
Proof.
  apply (@evaluate_conditional_any_order small_world (mkTask ∅ None None None [0; 3]) [3; 0] ∅).
  - apply Permutation_swap.
  - intros dep Hin. cbn [_dep_chain] in Hin.
    apply elem_of_cons in Hin as [->|Hin]; [by exists false|].
    apply elem_of_cons in Hin as [->|Hin]; [by exists true|].
    by apply elem_of_nil in Hin.
  - reflexivity.
Defined.

(** ** The loader *)

Section Loader.
Context {Loader Objects : Type}.
Variable set_loader_of : oid → Loader → Objects → Objects.
Variable loader_of : Objects → oid → option Loader.

(** [o.set_loader(l)] gives [o] the loader [l] ... *)
Hypothesis set_loader_of_sets :
  ∀ o l objects, loader_of (set_loader_of o l objects) o = Some l.
(** ... and takes it from no object that has it. *)
Hypothesis set_loader_of_keeps :
  ∀ o o' l objects, loader_of objects o' = Some l →
                    loader_of (set_loader_of o l objects) o' = Some l.

Lemma set_loader_chain_keeps (deps : list oid) (l : Loader) : ∀ objects o,
  loader_of objects o = Some l →
  loader_of (foldl (fun objects dep => set_loader_of dep l objects) objects deps) o = Some l.
Proof.
  induction deps as [|dep deps IH]; intros objects o Ho; [done|].
  cbn [foldl]. apply IH. by apply set_loader_of_keeps.
Qed.

Lemma set_loader_chain_sets (deps : list oid) (l : Loader) : ∀ objects dep,
  dep ∈ deps →
  loader_of (foldl (fun objects dep => set_loader_of dep l objects) objects deps) dep = Some l.
Proof.
  induction deps as [|dep' deps IH]; intros objects dep Hin; [by apply elem_of_nil in Hin|].
  cbn [foldl]. apply elem_of_cons in Hin as [->|Hin].
  - apply set_loader_chain_keeps, set_loader_of_sets.
  - by apply IH.
Qed.

(** X13. After [set_loader] the task, its block and every entry of its
    dependency chain have the loader, whatever they had before, provided
    that setting the loader of one object gives it to that object and takes
    it from no other. *)
Theorem set_loader_reaches_all (self : Task) (loader : Loader) (objects : Objects) :
  (set_loader set_loader_of self loader objects).1 = loader
  ∧ (∀ block, _block self = Some block →
       loader_of (set_loader set_loader_of self loader objects).2 block = Some loader)
  ∧ (∀ dep, dep ∈ _dep_chain self →
       loader_of (set_loader set_loader_of self loader objects).2 dep = Some loader).
Proof.
  unfold set_loader. cbn [fst snd]. split_and!.
  - done.
  - intros block ->. apply set_loader_chain_keeps, set_loader_of_sets.
  - intros dep Hin. by apply set_loader_chain_sets.
Qed.

End Loader.

(** The objects of [nested_task], each with a loader of its own before. *)
Lemma set_loader_reaches_all_witness :
  let objects : gmap oid string := {[ 4 := "old"; 3 := "older" ]} in
  let after := (set_loader (fun o l objects => <[o := l]> objects) nested_task "new" objects).2 in
  after !! 4 = Some "new" ∧ after !! 3 = Some "new" ∧ after !! 2 = Some "new".
Proof.
  intros objects after.
  destruct (set_loader_reaches_all (fun o l (objects : gmap oid string) => <[o := l]> objects)
              (fun (objects : gmap oid string) o => objects !! o)
              (fun o l objects => lookup_insert_eq objects o l)
              (fun o o' l objects Ho => eq_trans (lookup_insert objects o o' l)
                 match decide (o = o') as d
                   return (if d then Some l else objects !! o') = Some l
                 with left _ => eq_refl | right _ => Ho end)
              nested_task "new" objects) as (_ & Hblock & Hchain).
  split_and!.
  - apply (Hblock 4). reflexivity.
  - apply (Hchain 3). in_list.
  - apply (Hchain 2). in_list.
Defined.

(** ** More on naming *)

Section Flattening.
Context `{W : World}.

Lemma merge_kv_private_only (kvs : list (string * value)) : ∀ buf,
  Forall (fun kv => startswith_underscore kv.1 = true) kvs →
  foldl merge_kv_step buf kvs = buf.
Proof.
  induction kvs as [|kv kvs IH]; intros buf Hall; [done|].
  apply Forall_cons in Hall as [Hkv Hall].
  cbn [foldl]. unfold merge_kv_step at 2. rewrite Hkv. by apply IH.
Qed.

(** X14. [_merge_kv] turns a dict into the text of its items, ["k=v"]
    separated by single spaces, in the order of the dict and without the
    items whose key starts with an underscore, stripped of white space at both
    ends; [None] becomes the empty text and a text stays as it is. *)
Theorem merge_kv_flattens (kvs : list (string * value)) (s : string) :
  _merge_kv (VDict kvs)
  = VStr (strip (String.concat ""
       ((fun kv => kv.1 +:+ "=" +:+ fmt_s kv.2 +:+ " ")
          <$> filter (fun kv => startswith_underscore kv.1 = false) kvs)))
  ∧ _merge_kv VNone = VStr ""
  ∧ _merge_kv (VStr s) = VStr s.
Proof.
  split_and!; [|done|done].
  cbn [_merge_kv]. by rewrite merge_kv_loop.
Qed.

(** X15. A task without role and name whose [args] holds no item but
    private ones, or none at all, is called by its action followed by a
    space; one whose [args] is a list, which [_merge_kv] does not flatten,
    is called by its action followed by " None". *)
Theorem get_name_of_odd_args (h : heap) (self : Task) :
  _role self = None →
  truthy (deref h (getattr self "name")) = false →
  (∀ kvs, deref h (getattr self "args") = VDict kvs →
     Forall (fun kv => startswith_underscore kv.1 = true) kvs →
     get_name h self = VStr (fmt_s (deref h (getattr self "action")) +:+ " "))
  ∧ (∀ vs, deref h (getattr self "args") = VList vs →
       get_name h self = VStr (fmt_s (deref h (getattr self "action")) +:+ " None")).
Proof.
  intros Hrole Hname. unfold get_name. rewrite Hrole, Hname. split.
  - intros kvs -> Hall. cbn [_merge_kv]. by rewrite merge_kv_private_only.
  - by intros vs ->.
Qed.

End Flattening.

Lemma get_name_of_odd_args_witness :
  @get_name small_world ∅ (bare_task [("action", VStr "setup"); ("args", VDict [("_raw", VStr "x")])])
  = VStr "setup "
  ∧ @get_name small_world ∅ (bare_task [("action", VStr "setup"); ("args", VList [VInt 1])])
    = VStr "setup None".
Proof.
  split.
  - apply (proj1 (@get_name_of_odd_args small_world ∅
                    (bare_task [("action", VStr "setup"); ("args", VDict [("_raw", VStr "x")])])
                    eq_refl eq_refl) [("_raw", VStr "x")]).
    + reflexivity.
    + repeat constructor.
  - apply (proj2 (@get_name_of_odd_args small_world ∅
                    (bare_task [("action", VStr "setup"); ("args", VList [VInt 1])])
                    eq_refl eq_refl) [VInt 1]).
    reflexivity.
Defined.
